(** * fms-js: the finite state machine of [src/fsm.js]

    A shallow embedding of the classes [FSM] and [State] (documented ES6
    source, the version with [executeOut] and [describe(stringify)]) and the
    properties of [fire], [execute], [executeOut] and [describe].

    - JavaScript values are the inductive [value]; the object fields that
      [fire] mutates ([_currentState], [_currentData], [_toExecute],
      [_toExecuteOut]) live in a [store] that every operation threads, next
      to the host's timer queue ([setTimeout]) and an observation trace.
    - The fields fixed by [_build] ([_states], [_onStateChangedListeners])
      form the record [FSM]; a handlers object is the list of its own
      properties, and inherits from [Object.prototype].
    - Functions supplied by the application (event handlers, listeners,
      deferred callbacks) are [code]: the calls they make on the machine, in
      order, and what they return.
    - A [throw] is the outcome [Raise]; a call stack that is exhausted by
      nested [fire] calls is the outcome [Raise RangeError]. *)

From Stdlib Require Import List String Ascii ZArith Bool Arith Lia.
From Stdlib Require Import DecimalString Permutation.
Import ListNotations.
Local Open Scope string_scope.
Local Open Scope list_scope.
Local Set Warnings "-register-all".

(** ** JavaScript values *)

(** [VNum] stands for integer-valued numbers (the safe integers); [VObject]
    is an object with neither a [length] nor indexed properties. *)
Inductive value : Type :=
| VUndefined
| VNull
| VBool (b : bool)
| VNum (n : Z)
| VStr (s : string)
| VArr (l : list value)
| VObject.

Definition dquote : string := String (ascii_of_nat 34) EmptyString.

Definition join_with (sep : string) (parts : list string) : string :=
  match parts with
  | [] => EmptyString
  | p :: ps => fold_left (fun acc q => (acc ++ sep ++ q)%string) ps p
  end.

(** [ToString], as used by string concatenation and by property keys.
    [Array.prototype.join] renders [undefined] and [null] elements as the
    empty string. *)
Fixpoint to_string (v : value) : string :=
  match v with
  | VUndefined => "undefined"
  | VNull => "null"
  | VBool true => "true"
  | VBool false => "false"
  | VNum n => NilZero.string_of_int (Z.to_int n)
  | VStr s => s
  | VArr l =>
      join_with ","
        (map (fun e => match e with
                       | VUndefined | VNull => EmptyString
                       | _ => to_string e
                       end) l)
  | VObject => "[object Object]"
  end.

(** [v == null] *)
Definition nullish (v : value) : bool :=
  match v with
  | VUndefined | VNull => true
  | _ => false
  end.

(** [v.length], when [v] has one. *)
Definition js_length (v : value) : option nat :=
  match v with
  | VStr s => Some (String.length s)
  | VArr l => Some (List.length l)
  | _ => None
  end.

(** [v.length < n]: comparing [undefined] with a number is false. *)
Definition length_lt (v : value) (n : nat) : bool :=
  match js_length v with
  | Some k => Nat.ltb k n
  | None => false
  end.

(** [v[i]] *)
Definition js_index (v : value) (i : nat) : value :=
  match v with
  | VArr l => nth i l VUndefined
  | VStr s => match String.get i s with
              | Some c => VStr (String c EmptyString)
              | None => VUndefined
              end
  | _ => VUndefined
  end.

(** Truthiness, for [if (stringify)]. *)
Definition truthy (v : value) : bool :=
  match v with
  | VUndefined | VNull => false
  | VBool b => b
  | VNum n => negb (n =? 0)%Z
  | VStr s => negb (String.eqb s EmptyString)
  | VArr _ | VObject => true
  end.

(** ** Objects used as maps: own properties in insertion order *)

(** The array index a property name denotes, if any: the canonical decimal
    form of an integer below [2^32 - 1]. *)
Definition array_index (k : string) : option N :=
  match NilZero.uint_of_string k with
  | Some u =>
      let n := N.of_uint u in
      if String.eqb (NilZero.string_of_uint (N.to_uint n)) k && (n <? 4294967295)%N
      then Some n else None
  | None => None
  end.

Section Props.
Context {A : Type}.

Fixpoint lookup (k : string) (o : list (string * A)) : option A :=
  match o with
  | [] => None
  | (k', a) :: o' => if String.eqb k k' then Some a else lookup k o'
  end.

(** [o[k] = a]: an existing own property keeps its place. *)
Fixpoint assign (k : string) (a : A) (o : list (string * A)) : list (string * A) :=
  match o with
  | [] => [(k, a)]
  | (k', a') :: o' =>
      if String.eqb k k' then (k', a) :: o' else (k', a') :: assign k a o'
  end.

Definition hasOwnProperty (o : list (string * A)) (k : string) : bool :=
  match lookup k o with Some _ => true | None => false end.

(** [for (k in o)] visits the own properties named by an array index
    first, in ascending order, then the others in insertion order. *)
Fixpoint insert_index (e : N * (string * A)) (l : list (N * (string * A)))
  : list (N * (string * A)) :=
  match l with
  | [] => [e]
  | e' :: l' => if (fst e <=? fst e')%N then e :: l else e' :: insert_index e l'
  end.

Fixpoint for_in_split (o : list (string * A))
  : list (N * (string * A)) * list (string * A) :=
  match o with
  | [] => ([], [])
  | (k, a) :: o' =>
      let (ix, others) := for_in_split o' in
      match array_index k with
      | Some n => (insert_index (n, (k, a)) ix, others)
      | None => (ix, (k, a) :: others)
      end
  end.

Definition for_in (o : list (string * A)) : list (string * A) :=
  let (ix, others) := for_in_split o in map snd ix ++ others.
End Props.

(** ** Application code *)

(** The body of a function the application hands to the machine: the calls
    it makes, in order, closed by the value it returns or by a [throw]. A
    body has no [try]: what a call raises leaves the body. *)
Inductive code : Type :=
| Return (v : value)
| Log (s : string) (k : code)
| Execute (cb : code) (k : code)
| ExecuteOut (cb : code) (k : code)
| Fire (args : list value) (k : code)
| Throw (msg : string).

(** A handler receives [innerArgs]; a listener receives the old and the new
    state. *)
Definition handler : Type := list value -> code.
Definition listener : Type := value -> value -> code.

(** ** The machine *)

Inductive event : Type :=
| Logged (s : string)
| Notified (i : nat) (oldState newState : value)
| Ran (cb : code).

Record store : Type := mkStore {
  _currentState : value;
  _currentData : value;
  _toExecute : list code;
  _toExecuteOut : list code;
  timers : list code;
  trace : list event
}.

Record State : Type := mkState {
  _name : string;
  _handlers : list (string * handler)
}.

Record FSM : Type := mkFSM {
  _states : list (string * State);
  _onStateChangedListeners : list listener
}.

Inductive error : Type :=
| Thrown (msg : string)
| TypeError
| RangeError.

Inductive outcome (A : Type) : Type :=
| Ok (a : A) (st : store)
| Raise (e : error) (st : store).
Arguments Ok {A} a st.
Arguments Raise {A} e st.

Definition bind {A B : Type} (m : outcome A) (f : A -> store -> outcome B) : outcome B :=
  match m with
  | Ok a st => f a st
  | Raise e st => Raise e st
  end.

Notation "'let*' x , s ':=' m 'in' k" := (bind m (fun x s => k))
  (at level 10, x name, s name, m at level 100, k at level 200).

(** What the host supplies: the [!=]/[==] comparison and the members every
    object literal inherits from [Object.prototype]. An inherited member is
    either callable (it returns a value, or fails with a [TypeError]) or is
    not a function. *)
Inductive inherited : Type :=
| Callable (f : list value -> option value)
| NotCallable.

Record Host : Type := mkHost {
  loose_eq : value -> value -> bool;
  Object_prototype : string -> option inherited
}.


(** ** Store updates *)

Definition set_current (s d : value) (st : store) : store :=
  mkStore s d (_toExecute st) (_toExecuteOut st) (timers st) (trace st).

Definition set_queues (q qo : list code) (st : store) : store :=
  mkStore (_currentState st) (_currentData st) q qo (timers st) (trace st).

Definition observe (e : event) (st : store) : store :=
  mkStore (_currentState st) (_currentData st) (_toExecute st) (_toExecuteOut st)
          (timers st) (trace st ++ [e]).

(** [setTimeout(cb, 0)]: the host queues [cb] for a later turn. *)
Definition setTimeout (cb : code) (st : store) : store :=
  mkStore (_currentState st) (_currentData st) (_toExecute st) (_toExecuteOut st)
          (timers st ++ [cb]) (trace st).

(** [FSM.execute]: [this._toExecute.push(callback)] *)
Definition execute (callback : code) (st : store) : store :=
  set_queues (_toExecute st ++ [callback]) (_toExecuteOut st) st.

(** [FSM.executeOut]: [this._toExecuteOut.push(callback)] *)
Definition executeOut (callback : code) (st : store) : store :=
  set_queues (_toExecute st) (_toExecuteOut st ++ [callback]) st.

(** ** Error messages *)

Definition msg_no_event : string :=
  "The function fire must be called at least with the event name".

Definition msg_unknown_event (eventName : value) (name : string) : string :=
  ("The event " ++ dquote ++ to_string eventName ++ dquote
   ++ " does not exist in state " ++ dquote ++ name ++ dquote)%string.

Definition msg_malformed (eventName oldState : value) : string :=
  ("All event handlers must return the next state and data. Error for event "
   ++ dquote ++ to_string eventName ++ dquote
   ++ " on state " ++ dquote ++ to_string oldState ++ dquote)%string.

Definition InvalidInvocation : error := Thrown msg_no_event.
Definition UnknownEvent (eventName : value) (name : string) : error :=
  Thrown (msg_unknown_event eventName name).
Definition MalformedTransition (eventName oldState : value) : error :=
  Thrown (msg_malformed eventName oldState).
(** Reading [.fire] of a missing entry of the state table. *)
Definition UnknownState : error := TypeError.

Section Machine.
Variable H : Host.
Variable m : FSM.

Section Calls.
(** [this.fire], as the application code reaches it. *)
Variable self_fire : list value -> store -> outcome unit.

Fixpoint exec (c : code) (st : store) : outcome value :=
  match c with
  | Return v => Ok v st
  | Log s k => exec k (observe (Logged s) st)
  | Execute cb k => exec k (execute cb st)
  | ExecuteOut cb k => exec k (executeOut cb st)
  | Fire args k => let* _, st' := self_fire args st in exec k st'
  | Throw msg => Raise (Thrown msg) st
  end.

(** [eventName in this._handlers], then [this._handlers[eventName]]:
    own properties first, then the prototype. *)
Definition State_fire (s : State) (args : list value) (currentData : value)
           (st : store) : outcome value :=
  match args with
  | [] => Raise InvalidInvocation st
  | eventName :: rest =>
      let innerArgs := currentData :: rest in
      match lookup (to_string eventName) (_handlers s) with
      | Some h => exec (h innerArgs) st
      | None =>
          match Object_prototype H (to_string eventName) with
          | Some (Callable f) =>
              match f innerArgs with
              | Some v => Ok v st
              | None => Raise TypeError st
              end
          | Some NotCallable => Raise TypeError st
          | None => Raise (UnknownEvent eventName (_name s)) st
          end
      end
  end.

(** The listener loop; [this._currentState] is read at every call. *)
Fixpoint notify (oldState : value) (ls : list listener) (i : nat) (st : store)
  : outcome unit :=
  match ls with
  | [] => Ok tt st
  | l :: ls' =>
      let newState := _currentState st in
      let* _, st' := exec (l oldState newState) (observe (Notified i oldState newState) st) in
      notify oldState ls' (S i) st'
  end.

(** [for (...) toExecute[i]()] *)
Fixpoint run_all (cbs : list code) (st : store) : outcome unit :=
  match cbs with
  | [] => Ok tt st
  | cb :: cbs' =>
      let* _, st' := exec cb (observe (Ran cb) st) in
      run_all cbs' st'
  end.

(** [for (...) setTimeout(toExecuteOut[i], 0)] *)
Definition schedule_all (cbs : list code) (st : store) : store :=
  fold_left (fun s cb => setTimeout cb s) cbs st.

(** [if (oldState != this._currentState) { ... }] *)
Definition notify_change (oldState : value) (st : store) : outcome unit :=
  if negb (loose_eq H oldState (_currentState st))
  then notify oldState (_onStateChangedListeners m) 0 st
  else Ok tt st.

(** Both queues are swapped for empty ones, then the first is run and
    the second handed to [setTimeout]. *)
Definition drain (st : store) : outcome unit :=
  let toExecute := _toExecute st in
  let toExecuteOut := _toExecuteOut st in
  let* _, st' := run_all toExecute (set_queues [] [] st) in
  Ok tt (schedule_all toExecuteOut st').

(** What [fire] does once the handler's result is committed. *)
Definition after_commit (oldState : value) (st : store) : outcome unit :=
  let* _, st' := notify_change oldState st in drain st'.

Definition fire_body (args : list value) (st : store) : outcome unit :=
  let oldState := _currentState st in
  match lookup (to_string oldState) (_states m) with
  | None => Raise UnknownState st
  | Some s =>
      let* result, st1 := State_fire s args (_currentData st) st in
      if nullish result || length_lt result 2
      then Raise (MalformedTransition (nth 0 args VUndefined) oldState) st1
      else after_commit oldState (set_current (js_index result 0) (js_index result 1) st1)
  end.
End Calls.

(** [FSM.fire]; [depth] is the room left on the call stack, one frame per
    nested [fire]. *)
Fixpoint fire (depth : nat) (args : list value) (st : store) : outcome unit :=
  match depth with
  | O => Raise RangeError st
  | S d => fire_body (fire d) args st
  end.
End Machine.

(** ** Introspection *)

Record StateDescription : Type := mkStateDescription {
  name : string;
  handlers : list string
}.

(** The object literal that [FSM.describe] fills in. *)
Record Description : Type := mkDescription {
  current_state : value;
  current_data : value;
  listeners_count : nat;
  states : list StateDescription
}.

(** What [describe] returns: [JSON.stringify(result, null, indent)], or
    [Object.freeze(result)]. *)
Inductive described : Type :=
| Stringified (indent : string) (result : Description)
| Frozen (result : Description).

Section Introspection.
Variable H : Host.
Variable m : FSM.

Section DescribeCalls.
(** The machine's [fire], as application code reaches it. *)
Variable self_fire : list value -> store -> outcome unit.

(** [this._handlers.hasOwnProperty(handler)] for each name, when the
    handlers object owns a property called [hasOwnProperty]: the call reaches
    that event handler, with the name as its only argument, and the name is
    kept when what the handler returns is truthy. The calls its body makes
    on the machine are carried out as anywhere else. *)
Fixpoint kept_by (h : handler) (keys : list string) (st : store)
  : outcome (list string) :=
  match keys with
  | [] => Ok [] st
  | k :: keys' =>
      let* v, st1 := exec self_fire (h [VStr k]) st in
      let* kept, st2 := kept_by h keys' st1 in
      Ok (if truthy v then k :: kept else kept) st2
  end.

(** [State.describe]: the names [for (handler in this._handlers)] visits
    and [this._handlers.hasOwnProperty(handler)] accepts. *)
Definition State_describe (s : State) (st : store) : outcome StateDescription :=
  let keys := map fst (for_in (_handlers s)) in
  match lookup "hasOwnProperty" (_handlers s) with
  | None => Ok (mkStateDescription (_name s) keys) st
  | Some h =>
      let* kept, st' := kept_by h keys st in
      Ok (mkStateDescription (_name s) kept) st'
  end.

(** [states.push(this._states[state].describe())] for each own property. *)
Fixpoint describe_states (l : list (string * State)) (st : store)
  : outcome (list StateDescription) :=
  match l with
  | [] => Ok [] st
  | (_, s) :: l' =>
      let* d, st1 := State_describe s st in
      let* ds, st2 := describe_states l' st1 in
      Ok (d :: ds) st2
  end.

(** [FSM.describe]; [stringify] is [VUndefined] when the argument is left
    out. A state table that owns a property named [hasOwnProperty] makes
    [this._states.hasOwnProperty(state)] a call to a [State] object, which
    fails. *)
Definition describe_body (stringify : value) (st : store) : outcome described :=
  if hasOwnProperty (_states m) "hasOwnProperty" then Raise TypeError st
  else
    let* states, st' := describe_states (for_in (_states m)) st in
    let result :=
      mkDescription (_currentState st') (_currentData st')
                    (List.length (_onStateChangedListeners m)) states in
    Ok (if nullish stringify || truthy stringify
        then Stringified " " result
        else Frozen result) st'.
End DescribeCalls.

(** [depth] is the room left on the call stack for the [fire] calls of a
    handler that [State.describe] happens to call. *)
Definition describe (depth : nat) (st : store) (stringify : value) : outcome described :=
  describe_body (fire H m depth) stringify st.
End Introspection.

(** ** Construction *)

(** [new FSM(initialState, initialData, listeners)]: what the constructor
    puts in the fields that [fire] mutates. The state table and the listener
    list, which [FSMBuilder._build] installs once and for all, are given
    directly as an [FSM] record. *)
Definition FSM_new (initialState initialData : value) : store :=
  mkStore initialState initialData [] [] [] [].

(** ** A host and the tutorial machine of the README *)

(** [==] on [undefined], [null] and two primitives of one type. The
    machines below compare state names that are strings. *)
Definition primitive_eq (a b : value) : bool :=
  match a, b with
  | (VUndefined | VNull), (VUndefined | VNull) => true
  | VBool x, VBool y => Bool.eqb x y
  | VNum x, VNum y => (x =? y)%Z
  | VStr x, VStr y => String.eqb x y
  | _, _ => false
  end.

(** [Object(v)], as far as [.length] and indexing can tell. *)
Definition to_object (v : value) : value :=
  match v with
  | VStr _ | VArr _ => v
  | _ => VObject
  end.

(** The own fields of a built machine. *)
Definition FSM_fields : list string :=
  ["_currentState"; "_currentData"; "_onStateChangedListeners"; "_states";
   "_toExecute"; "_toExecuteOut"].

Definition owns_field (v : value) : bool :=
  existsb (String.eqb (to_string v)) FSM_fields.

(** Members of [Object.prototype] as [State.fire] meets them: applied with
    the machine as [this] and [innerArgs] as arguments, whose values are
    never functions. [__lookupGetter__] and [__lookupSetter__], which may
    return a function, are left out. *)
Definition es_Object_prototype_members : list (string * inherited) :=
  [("constructor", Callable (fun args => Some (to_object (nth 0 args VUndefined))));
   ("toString", Callable (fun _ => Some (VStr "[object Object]")));
   ("toLocaleString", Callable (fun _ => Some (VStr "[object Object]")));
   ("valueOf", Callable (fun _ => Some VObject));
   ("hasOwnProperty", Callable (fun args => Some (VBool (owns_field (nth 0 args VUndefined)))));
   ("propertyIsEnumerable",
    Callable (fun args => Some (VBool (owns_field (nth 0 args VUndefined)))));
   ("isPrototypeOf", Callable (fun _ => Some (VBool false)));
   ("__defineGetter__", Callable (fun _ => None));
   ("__defineSetter__", Callable (fun _ => None));
   ("__proto__", NotCallable)].

Definition es_Object_prototype (k : string) : option inherited :=
  lookup k es_Object_prototype_members.

Definition browser : Host := mkHost primitive_eq es_Object_prototype.

(** [elements || 1] *)
Definition elements_or_1 (rest : list value) : Z :=
  match rest with
  | VNum e :: _ => if (e =? 0)%Z then 1%Z else e
  | _ => 1%Z
  end.

Definition produce : handler := fun innerArgs =>
  match innerArgs with
  | VNum data :: rest =>
      let elts := elements_or_1 rest in
      if (data + elts <=? 10)%Z
      then Return (VArr [VStr "producer"; VNum (data + elts)])
      else Log "full" (Return (VArr [VStr "producer"; VNum data]))
  | _ => Return VUndefined
  end.

Definition consume : handler := fun innerArgs =>
  match innerArgs with
  | VNum data :: rest =>
      let elts := elements_or_1 rest in
      if (0 <=? data - elts)%Z
      then Return (VArr [VStr "consumer"; VNum (data - elts)])
      else Log "empty" (Return (VArr [VStr "consumer"; VNum data]))
  | _ => Return VUndefined
  end.

Definition switch_to (target : string) : handler := fun innerArgs =>
  Return (VArr [VStr target; nth 0 innerArgs VUndefined]).

Definition log_change : listener := fun oldState newState =>
  Log (to_string oldState ++ " -> " ++ to_string newState)%string (Return VUndefined).

Definition tutorial : FSM * store :=
  (mkFSM [("producer", mkState "producer" [("produce", produce);
                                            ("switch", switch_to "consumer")]);
          ("consumer", mkState "consumer" [("consume", consume);
                                            ("switch", switch_to "producer")])]
         [log_change],
   FSM_new (VStr "producer") (VNum 0)).

(** ** What a body does when it runs straight through *)

(** Neither a call to [this.fire] nor a [throw]: the body returns. *)
Fixpoint completes (c : code) : bool :=
  match c with
  | Return _ => true
  | Log _ k | Execute _ k | ExecuteOut _ k => completes k
  | Fire _ _ | Throw _ => false
  end.

Fixpoint returned (c : code) : value :=
  match c with
  | Return v => v
  | Log _ k | Execute _ k | ExecuteOut _ k | Fire _ k => returned k
  | Throw _ => VUndefined
  end.

Fixpoint logs (c : code) : list event :=
  match c with
  | Log s k => Logged s :: logs k
  | Execute _ k | ExecuteOut _ k | Fire _ k => logs k
  | Return _ | Throw _ => []
  end.

(** The callbacks the body passes to [execute], in order. *)
Fixpoint execs (c : code) : list code :=
  match c with
  | Execute cb k => cb :: execs k
  | Log _ k | ExecuteOut _ k | Fire _ k => execs k
  | Return _ | Throw _ => []
  end.

(** The callbacks the body passes to [executeOut], in order. *)
Fixpoint outs (c : code) : list code :=
  match c with
  | ExecuteOut cb k => cb :: outs k
  | Log _ k | Execute _ k | Fire _ k => outs k
  | Return _ | Throw _ => []
  end.

Definition effects (c : code) (st : store) : store :=
  mkStore (_currentState st) (_currentData st)
          (_toExecute st ++ execs c) (_toExecuteOut st ++ outs c)
          (timers st) (trace st ++ logs c).

(** A listener that returns whatever it is given, and registers only
    callbacks that return. *)
Definition calm (l : listener) : Prop :=
  forall a b, completes (l a b) = true
              /\ Forall (fun cb => completes cb = true) (execs (l a b)).

(** The events of notifying [ls], numbered from [i]. *)
Fixpoint notif_trace (oldState newState : value) (i : nat) (ls : list listener)
  : list event :=
  match ls with
  | [] => []
  | l :: ls' =>
      Notified i oldState newState :: logs (l oldState newState)
      ++ notif_trace oldState newState (S i) ls'
  end.

Definition notif_execs (oldState newState : value) (ls : list listener) : list code :=
  flat_map (fun l : listener => execs (l oldState newState)) ls.

Definition notif_outs (oldState newState : value) (ls : list listener) : list code :=
  flat_map (fun l : listener => outs (l oldState newState)) ls.

Definition drain_trace (cbs : list code) : list event :=
  flat_map (fun cb => Ran cb :: logs cb) cbs.

Definition is_notified (e : event) : bool :=
  match e with Notified _ _ _ => true | _ => false end.

Definition is_ran (e : event) : bool :=
  match e with Ran _ => true | _ => false end.


(** ** Machines that exercise the corner cases *)

Definition stay (target : string) : handler := fun innerArgs =>
  Return (VArr [VStr target; nth 0 innerArgs VUndefined]).

(** A handler that returns three elements. *)
Definition triple_machine : FSM * store :=
  (mkFSM [("a", mkState "a" [("go", fun _ => Return (VArr [VStr "a"; VNum 1; VNum 2]))])]
         [],
   FSM_new (VStr "a") (VNum 0)).

Definition say_callback : code := Log "callback" (Return VUndefined).

(** A handler that registers a callback, fires another event, and only
    then returns its transition. *)
Definition reentrant_machine : FSM * store :=
  (mkFSM [("a", mkState "a"
                  [("go", fun _ => Execute say_callback
                                     (Fire [VStr "noop"]
                                        (Return (VArr [VStr "b"; VNum 0]))));
                   ("noop", stay "a")]);
          ("b", mkState "b" [])]
         [log_change],
   FSM_new (VStr "a") (VNum 0)).

Definition say_later : code := Log "later" (Return VUndefined).



(** A machine whose handlers name a state that was never declared, register
    deferred work, or return [null]. *)
Definition typo_machine : FSM * store :=
  (mkFSM [("a", mkState "a"
                  [("go", fun _ => Return (VArr [VStr "typo"; VNum 1]));
                   ("work", fun _ => Execute say_callback
                                       (ExecuteOut say_later
                                          (Return (VArr [VStr "done"; VNum 1]))));
                   ("null", fun _ => ExecuteOut say_later
                                       (Execute say_callback (Return VNull)))]);
          ("done", mkState "done" [])]
         [log_change],
   FSM_new (VStr "a") (VNum 0)).

(** The store a [fire] call leaves once the result is committed, when the
    listeners and the queued callbacks run straight through. *)
Definition settled (H : Host) (m : FSM) (oldState : value) (st : store) : store :=
  let ls := if negb (loose_eq H oldState (_currentState st))
            then _onStateChangedListeners m else [] in
  let queue := _toExecute st ++ notif_execs oldState (_currentState st) ls in
  let queueOut := _toExecuteOut st ++ notif_outs oldState (_currentState st) ls in
  mkStore (_currentState st) (_currentData st)
          (flat_map execs queue) (flat_map outs queue)
          (timers st ++ queueOut)
          (trace st ++ notif_trace oldState (_currentState st) 0 ls ++ drain_trace queue).

(** ** Builders *)

(** [StateBuilder]: the handlers a state initializer registers. *)
Module StateBuilder.
Record t : Type := mk {
  _name : string;
  _handlers : list (string * handler)
}.

(** [new StateBuilder(name)] *)
Definition new (name : string) : t := mk name [].

(** [on(eventName, callback)]: [this._handlers[eventName] = callback].
    Under the name [__proto__] the assignment reaches the prototype setter
    of the object and replaces its prototype by [callback]; what such a
    handlers object inherits is not described here ([None]). *)
Definition on (eventName : string) (callback : handler) (b : t) : option t :=
  if String.eqb eventName "__proto__" then None
  else Some (mk (_name b) (assign eventName callback (_handlers b))).

(** A state initializer, as the calls to [on] it makes, in order. *)
Fixpoint initialize (calls : list (string * handler)) (b : t) : option t :=
  match calls with
  | [] => Some b
  | (eventName, callback) :: calls' =>
      match on eventName callback b with
      | Some b' => initialize calls' b'
      | None => None
      end
  end.

(** [_build(fsm)]: [new State(this._name, fsm, this._handlers)] *)
Definition _build (b : t) : State := mkState (_name b) (_handlers b).
End StateBuilder.

(** What [FSMBuilder._build] gives: the machine with the store its
    constructor starts from, or the error of the loop over the states. *)
Inductive built : Type :=
| Built (fsm : FSM) (st : store)
| BuildError (e : error).

(** [FSMBuilder], without members added by the application. *)
Module FSMBuilder.
Record t : Type := mk {
  _initialState : value;
  _initialData : value;
  _states : list (string * StateBuilder.t);
  _onStateChangedListeners : list listener
}.

(** [new FSMBuilder()] *)
Definition new : t := mk VNull VNull [] [].

Definition startWith (initialState initialData : value) (b : t) : t :=
  mk initialState initialData (_states b) (_onStateChangedListeners b).

(** [when(stateName, stateInitializer)]: the initializer runs on a fresh
    [StateBuilder], then [this._states[stateName] = state]. Under the name
    [__proto__] that assignment sets the prototype of the table and adds no
    own property. *)
Definition when (stateName : string) (stateInitializer : list (string * handler))
           (b : t) : option t :=
  match StateBuilder.initialize stateInitializer (StateBuilder.new stateName) with
  | None => None
  | Some state =>
      Some (mk (_initialState b) (_initialData b)
               (if String.eqb stateName "__proto__" then _states b
                else assign stateName state (_states b))
               (_onStateChangedListeners b))
  end.

Definition onStateChanged (l : listener) (b : t) : t :=
  mk (_initialState b) (_initialData b) (_states b) (_onStateChangedListeners b ++ [l]).

(** [_build()]. The loop tests [this._states.hasOwnProperty(state)]: a
    state declared under the name [hasOwnProperty] puts a [StateBuilder]
    where the method is looked up, and the call fails. With no member added
    to the builder, the second loop copies nothing. *)
Definition _build (b : t) : built :=
  if hasOwnProperty (_states b) "hasOwnProperty" then BuildError TypeError
  else Built (mkFSM (map (fun e => (fst e, StateBuilder._build (snd e)))
                         (for_in (_states b)))
                    (_onStateChangedListeners b))
             (FSM_new (_initialState b) (_initialData b)).
End FSMBuilder.

(** The calls an initializer makes on the builder it receives. *)
Inductive builder_call : Type :=
| StartWith (initialState initialData : value)
| When (stateName : string) (stateInitializer : list (string * handler))
| OnStateChanged (l : listener).

Definition call_builder (c : builder_call) (b : FSMBuilder.t) : option FSMBuilder.t :=
  match c with
  | StartWith s d => Some (FSMBuilder.startWith s d b)
  | When stateName stateInitializer => FSMBuilder.when stateName stateInitializer b
  | OnStateChanged l => Some (FSMBuilder.onStateChanged l b)
  end.

Fixpoint configure (calls : list builder_call) (b : FSMBuilder.t) : option FSMBuilder.t :=
  match calls with
  | [] => Some b
  | c :: calls' =>
      match call_builder c b with
      | Some b' => configure calls' b'
      | None => None
      end
  end.

(** [create(initializer)] *)
Definition create (initializer : list builder_call) : option built :=
  option_map FSMBuilder._build (configure initializer FSMBuilder.new).

Definition is_StartWith (c : builder_call) : bool :=
  match c with StartWith _ _ => true | _ => false end.

Definition declares (stateName : string) (c : builder_call) : bool :=
  match c with When k _ => String.eqb k stateName | _ => false end.

(** The listeners an initializer registers, in call order. *)
Definition registered_listeners (calls : list builder_call) : list listener :=
  flat_map (fun c => match c with OnStateChanged l => [l] | _ => [] end) calls.

(** The initializer of the tutorial. *)
Definition tutorial_initializer : list builder_call :=
  [StartWith (VStr "producer") (VNum 0);
   When "producer" [("produce", produce); ("switch", switch_to "consumer")];
   When "consumer" [("consume", consume); ("switch", switch_to "producer")];
   OnStateChanged log_change].


(** ** Relations between the store before and after a call *)

(** The trace and the timer queue of [st'] extend those of [st]. *)
Definition extends (st st' : store) : Prop :=
  (exists evs, trace st' = trace st ++ evs)
  /\ (exists new, timers st' = timers st ++ new).

(** [st'] extends [st], and every callback queued in [st] is still queued
    in [st'] or was, in between, run (first queue) or handed to [setTimeout]
    (second queue). *)
Definition follows (st st' : store) : Prop :=
  exists evs new,
    trace st' = trace st ++ evs
    /\ timers st' = timers st ++ new
    /\ (forall cb, In cb (_toExecute st) -> In cb (_toExecute st') \/ In (Ran cb) evs)
    /\ (forall cb, In cb (_toExecuteOut st) -> In cb (_toExecuteOut st') \/ In cb new).

(** [st'] extends [st], and every callback queued in [st] was run (first
    queue) or handed to [setTimeout] (second queue). *)
Definition flushed (st st' : store) : Prop :=
  exists evs new,
    trace st' = trace st ++ evs
    /\ timers st' = timers st ++ new
    /\ (forall cb, In cb (_toExecute st) -> In (Ran cb) evs)
    /\ (forall cb, In cb (_toExecuteOut st) -> In cb new).

Definition outcome_sat {A : Type} (P Q : store -> Prop) (o : outcome A) : Prop :=
  match o with
  | Ok _ st => P st
  | Raise _ st => Q st
  end.

Definition outcome_store {A : Type} (o : outcome A) : store :=
  match o with
  | Ok _ st => st
  | Raise _ st => st
  end.


(** The message of the [throw] that ends a body which never calls
    [this.fire]. *)
Fixpoint thrown (c : code) : option string :=
  match c with
  | Throw msg => Some msg
  | Log _ k | Execute _ k | ExecuteOut _ k => thrown k
  | Return _ | Fire _ _ => None
  end.


(** ** The earlier versions *)

(** [this._toExecute = []], in a machine that has one queue only. *)
Definition set_toExecute (q : list code) (st : store) : store :=
  mkStore (_currentState st) (_currentData st) q (_toExecuteOut st) (timers st) (trace st).

Section Legacy.
Variable H : Host.
Variable m : FSM.

Section LegacyCalls.
Variable self_fire : list value -> store -> outcome unit.

(** Application code on a machine without [executeOut]: calling the
    missing method fails. *)
Fixpoint exec_v1 (c : code) (st : store) : outcome value :=
  match c with
  | Return v => Ok v st
  | Log s k => exec_v1 k (observe (Logged s) st)
  | Execute cb k => exec_v1 k (execute cb st)
  | ExecuteOut cb k => Raise TypeError st
  | Fire args k => let* _, st' := self_fire args st in exec_v1 k st'
  | Throw msg => Raise (Thrown msg) st
  end.

Definition State_fire_v1 (s : State) (args : list value) (currentData : value)
           (st : store) : outcome value :=
  match args with
  | [] => Raise InvalidInvocation st
  | eventName :: rest =>
      let innerArgs := currentData :: rest in
      match lookup (to_string eventName) (_handlers s) with
      | Some h => exec_v1 (h innerArgs) st
      | None =>
          match Object_prototype H (to_string eventName) with
          | Some (Callable f) =>
              match f innerArgs with
              | Some v => Ok v st
              | None => Raise TypeError st
              end
          | Some NotCallable => Raise TypeError st
          | None => Raise (UnknownEvent eventName (_name s)) st
          end
      end
  end.

Fixpoint notify_v1 (oldState : value) (ls : list listener) (i : nat) (st : store)
  : outcome unit :=
  match ls with
  | [] => Ok tt st
  | l :: ls' =>
      let newState := _currentState st in
      let* _, st' := exec_v1 (l oldState newState)
                             (observe (Notified i oldState newState) st) in
      notify_v1 oldState ls' (S i) st'
  end.

Fixpoint run_all_v1 (cbs : list code) (st : store) : outcome unit :=
  match cbs with
  | [] => Ok tt st
  | cb :: cbs' =>
      let* _, st' := exec_v1 cb (observe (Ran cb) st) in
      run_all_v1 cbs' st'
  end.

Definition notify_change_v1 (oldState : value) (st : store) : outcome unit :=
  if negb (loose_eq H oldState (_currentState st))
  then notify_v1 oldState (_onStateChangedListeners m) 0 st
  else Ok tt st.

(** Lines 14-36 of [part_000]: validation, commit and notification as in
    the current version, then the one queue is swapped and run. *)
Definition fire_body_v1 (args : list value) (st : store) : outcome unit :=
  let oldState := _currentState st in
  match lookup (to_string oldState) (_states m) with
  | None => Raise UnknownState st
  | Some s =>
      let* result, st1 := State_fire_v1 s args (_currentData st) st in
      if nullish result || length_lt result 2
      then Raise (MalformedTransition (nth 0 args VUndefined) oldState) st1
      else
        let* _, st3 :=
          notify_change_v1 oldState
            (set_current (js_index result 0) (js_index result 1) st1) in
        let toExecute := _toExecute st3 in
        run_all_v1 toExecute (set_toExecute [] st3)
  end.

(** [c], then [k]: what a function does that calls one callback after the
    other; the value [c] returns is dropped, a [throw] of [c] ends both. *)
Fixpoint and_then (c k : code) : code :=
  match c with
  | Return _ => k
  | Log s c' => Log s (and_then c' k)
  | Execute cb c' => Execute cb (and_then c' k)
  | ExecuteOut cb c' => ExecuteOut cb (and_then c' k)
  | Fire args c' => Fire args (and_then c' k)
  | Throw msg => Throw msg
  end.


(** [State.describe] and the loop of [FSM.describe] in the machine of
    that version, whose application code runs as [exec_v1]. *)
Fixpoint kept_by_v1 (h : handler) (keys : list string) (st : store)
  : outcome (list string) :=
  match keys with
  | [] => Ok [] st
  | k :: keys' =>
      let* v, st1 := exec_v1 (h [VStr k]) st in
      let* kept, st2 := kept_by_v1 h keys' st1 in
      Ok (if truthy v then k :: kept else kept) st2
  end.

Definition State_describe_v1 (s : State) (st : store) : outcome StateDescription :=
  let keys := map fst (for_in (_handlers s)) in
  match lookup "hasOwnProperty" (_handlers s) with
  | None => Ok (mkStateDescription (_name s) keys) st
  | Some h =>
      let* kept, st' := kept_by_v1 h keys st in
      Ok (mkStateDescription (_name s) kept) st'
  end.

Fixpoint describe_states_v1 (l : list (string * State)) (st : store)
  : outcome (list StateDescription) :=
  match l with
  | [] => Ok [] st
  | (_, s) :: l' =>
      let* d, st1 := State_describe_v1 s st in
      let* ds, st2 := describe_states_v1 l' st1 in
      Ok (d :: ds) st2
  end.

(** [describe] before it looked at its argument (first version of
    [part_000], transpiled in [part_002]): always
    [JSON.stringify(result, null, ' ')]. *)
Definition describe_body_v1 (stringify : value) (st : store) : outcome described :=
  if hasOwnProperty (_states m) "hasOwnProperty" then Raise TypeError st
  else
    let* states, st' := describe_states_v1 (for_in (_states m)) st in
    Ok (Stringified " "
          (mkDescription (_currentState st') (_currentData st')
                         (List.length (_onStateChangedListeners m)) states)) st'.
End LegacyCalls.

Fixpoint fire_v1 (depth : nat) (args : list value) (st : store) : outcome unit :=
  match depth with
  | O => Raise RangeError st
  | S d => fire_body_v1 (fire_v1 d) args st
  end.


Definition describe_v1 (depth : nat) (st : store) (stringify : value)
  : outcome described :=
  describe_body_v1 (fire_v1 depth) stringify st.
End Legacy.

(** No call to [executeOut], neither in the body nor in the callbacks it
    passes to [execute]. *)
Fixpoint no_out (c : code) : bool :=
  match c with
  | Return _ | Throw _ => true
  | Log _ k | Fire _ k => no_out k
  | Execute cb k => no_out cb && no_out k
  | ExecuteOut _ _ => false
  end.

Definition machine_no_out (m : FSM) : Prop :=
  (forall k s e h args,
      In (k, s) (_states m) -> In (e, h) (_handlers s) -> no_out (h args) = true)
  /\ (forall l a b, In l (_onStateChangedListeners m) -> no_out (l a b) = true).

Definition store_no_out (st : store) : Prop :=
  _toExecuteOut st = [] /\ Forall (fun cb => no_out cb = true) (_toExecute st).



(** A machine whose handler throws after queueing a callback, and one whose
    handler queues a callback that throws between two that do not. *)
Definition throwing_machine : FSM * store :=
  (mkFSM [("a", mkState "a"
                  [("boom", fun _ => Execute say_callback (Throw "boom"));
                   ("go", fun _ => Execute say_callback
                                     (Execute (Throw "bad")
                                        (Execute say_callback
                                           (ExecuteOut say_later
                                              (Return (VArr [VStr "a"; VNum 1]))))))])]
         [log_change],
   FSM_new (VStr "a") (VNum 0)).






(** * Properties *)

Section Facts.
Variable H : Host.
Variable m : FSM.
Variable self : list value -> store -> outcome unit.

Lemma exec_completes (c : code) : forall st,
  completes c = true -> exec self c st = Ok (returned c) (effects c st).
Proof.
  induction c as [v | s k IH | cb _ k IH | cb _ k IH | args k IH | msg];
    intros st Hc; simpl in *; try discriminate.
  - unfold effects; simpl. rewrite !app_nil_r. now destruct st.
  - rewrite (IH _ Hc). unfold effects, observe; simpl.
    now rewrite <- !app_assoc.
  - rewrite (IH _ Hc). unfold effects, execute, set_queues; simpl.
    now rewrite <- !app_assoc.
  - rewrite (IH _ Hc). unfold effects, executeOut, set_queues; simpl.
    now rewrite <- !app_assoc.
Qed.

Lemma notify_calm (oldState : value) (ls : list listener) : forall i st,
  Forall calm ls ->
  notify self oldState ls i st =
  Ok tt (mkStore (_currentState st) (_currentData st)
                 (_toExecute st ++ notif_execs oldState (_currentState st) ls)
                 (_toExecuteOut st ++ notif_outs oldState (_currentState st) ls)
                 (timers st)
                 (trace st ++ notif_trace oldState (_currentState st) i ls)).
Proof.
  induction ls as [| l ls IH]; intros i st Hls; simpl.
  - rewrite !app_nil_r. now destruct st.
  - inversion Hls as [| ? ? Hl Hls']; subst.
    destruct (Hl oldState (_currentState st)) as [Hc _].
    rewrite (exec_completes _ _ Hc). simpl.
    rewrite (IH _ _ Hls'). simpl.
    now rewrite <- !app_assoc.
Qed.

Lemma run_all_completes (cbs : list code) : forall st,
  Forall (fun cb => completes cb = true) cbs ->
  run_all self cbs st =
  Ok tt (mkStore (_currentState st) (_currentData st)
                 (_toExecute st ++ flat_map execs cbs)
                 (_toExecuteOut st ++ flat_map outs cbs)
                 (timers st)
                 (trace st ++ drain_trace cbs)).
Proof.
  induction cbs as [| cb cbs IH]; intros st Hcbs; simpl.
  - rewrite !app_nil_r. now destruct st.
  - inversion Hcbs as [| ? ? Hc Hcbs']; subst.
    rewrite (exec_completes _ _ Hc). simpl.
    rewrite (IH _ Hcbs'). simpl.
    now rewrite <- !app_assoc.
Qed.

Lemma schedule_all_spec (cbs : list code) : forall st,
  schedule_all cbs st =
  mkStore (_currentState st) (_currentData st) (_toExecute st) (_toExecuteOut st)
          (timers st ++ cbs) (trace st).
Proof.
  unfold schedule_all.
  induction cbs as [| cb cbs IH]; intros st; simpl.
  - rewrite app_nil_r. now destruct st.
  - rewrite IH. simpl. now rewrite <- app_assoc.
Qed.

Lemma notif_execs_complete (a b : value) (ls : list listener) :
  Forall calm ls -> Forall (fun cb => completes cb = true) (notif_execs a b ls).
Proof.
  induction 1 as [| l ls Hl _ IH]; simpl; [constructor |].
  apply Forall_app. split; [apply (Hl a b) | exact IH].
Qed.

Lemma after_commit_calm (oldState : value) (st : store) :
  Forall calm (_onStateChangedListeners m) ->
  Forall (fun cb => completes cb = true) (_toExecute st) ->
  after_commit H m self oldState st = Ok tt (settled H m oldState st).
Proof.
  intros Hls Hq. unfold after_commit, notify_change, settled.
  destruct (negb (loose_eq H oldState (_currentState st))).
  - rewrite (notify_calm _ _ _ _ Hls). simpl.
    unfold drain; simpl.
    rewrite run_all_completes; simpl.
    + now rewrite schedule_all_spec; simpl; rewrite <- !app_assoc.
    + apply Forall_app. split; [exact Hq | now apply notif_execs_complete].
  - simpl. unfold drain.
    rewrite run_all_completes; simpl.
    + now rewrite schedule_all_spec; simpl; rewrite !app_nil_r.
    + exact Hq.
Qed.
End Facts.

Section Transition.
Variable H : Host.
Variable m : FSM.

(** [fire] on an event whose handler is an own property of the current
    state: lines 209-215, with the rest of the call as [after_commit]. *)
Lemma fire_handler (d : nat) (s : State) (h : handler) (e : value)
      (rest : list value) (st : store) :
  lookup (to_string (_currentState st)) (_states m) = Some s ->
  lookup (to_string e) (_handlers s) = Some h ->
  fire H m (S d) (e :: rest) st =
  let* result, st1 := exec (fire H m d) (h (_currentData st :: rest)) st in
  if nullish result || length_lt result 2
  then Raise (MalformedTransition e (_currentState st)) st1
  else after_commit H m (fire H m d) (_currentState st)
         (set_current (js_index result 0) (js_index result 1) st1).
Proof.
  intros Hs Hh. simpl. unfold fire_body. rewrite Hs.
  unfold State_fire. rewrite Hh. reflexivity.
Qed.

Lemma no_notification_in_logs (c : code) : filter is_notified (logs c) = [].
Proof. induction c; simpl; auto. Qed.

Lemma nothing_ran_in_logs (c : code) : filter is_ran (logs c) = [].
Proof. induction c; simpl; auto. Qed.




(** C2 (amended). When the handler of a [fire] call runs and returns
    [r]: if [r] is [null] or [undefined], or has a [length] below two, the
    call raises [MalformedTransition], which names the event and the state;
    if [r] has a [length] of two or more, the validation lets it through:
    the call goes on with the commit, and completes when the listeners and
    the queued callbacks do. *)
Theorem malformed_transition_guard (d : nat) (s : State) (h : handler) (e : value)
        (rest : list value) (st st1 : store) (r : value) :
  lookup (to_string (_currentState st)) (_states m) = Some s ->
  lookup (to_string e) (_handlers s) = Some h ->
  exec (fire H m d) (h (_currentData st :: rest)) st = Ok r st1 ->
  (nullish r = true \/ (exists n, js_length r = Some n /\ n < 2) ->
     fire H m (S d) (e :: rest) st
     = Raise (Thrown (msg_malformed e (_currentState st))) st1)
  /\ ((exists n, js_length r = Some n /\ 2 <= n) ->
      fire H m (S d) (e :: rest) st
      = after_commit H m (fire H m d) (_currentState st)
          (set_current (js_index r 0) (js_index r 1) st1)
      /\ (Forall calm (_onStateChangedListeners m) ->
          Forall (fun cb => completes cb = true) (_toExecute st1) ->
          exists st', fire H m (S d) (e :: rest) st = Ok tt st')).
Proof.
  intros Hs Hh Hr. rewrite (fire_handler d s h e rest st Hs Hh), Hr. simpl.
  split.
  - intros [Hn | [n [Hl Hn]]].
    + now rewrite Hn.
    + unfold length_lt. rewrite Hl.
      apply Nat.ltb_lt in Hn. rewrite Hn, orb_true_r. reflexivity.
  - intros [n [Hl Hn]].
    assert (Hok : nullish r || length_lt r 2 = false).
    { unfold length_lt. rewrite Hl.
      apply Nat.ltb_ge in Hn. rewrite Hn.
      destruct r; simpl in *; try discriminate; reflexivity. }
    rewrite Hok. split; [reflexivity |].
    intros Hls Hq. eexists. now apply after_commit_calm.
Qed.

(** C3. When the handler returns the pair [[nextState, nextData]], [fire]
    commits exactly that pair, whether or not [nextState] is a key of the
    state table: the rest of the call starts from it, and it is what the
    call leaves when the listeners and the queued callbacks run straight
    through. *)
Theorem fire_commits_pair (d : nat) (s : State) (h : handler) (e : value)
        (rest : list value) (st st1 : store) (nextState nextData : value) :
  lookup (to_string (_currentState st)) (_states m) = Some s ->
  lookup (to_string e) (_handlers s) = Some h ->
  exec (fire H m d) (h (_currentData st :: rest)) st
  = Ok (VArr [nextState; nextData]) st1 ->
  fire H m (S d) (e :: rest) st
  = after_commit H m (fire H m d) (_currentState st)
      (set_current nextState nextData st1)
  /\ (Forall calm (_onStateChangedListeners m) ->
      Forall (fun cb => completes cb = true) (_toExecute st1) ->
      exists st', fire H m (S d) (e :: rest) st = Ok tt st'
                  /\ _currentState st' = nextState
                  /\ _currentData st' = nextData).
Proof.
  intros Hs Hh Hr. rewrite (fire_handler d s h e rest st Hs Hh), Hr. simpl.
  split; [reflexivity |].
  intros Hls Hq. rewrite after_commit_calm by assumption.
  eexists. split; [reflexivity |]. split; reflexivity.
Qed.

End Transition.

Section Deferred.
Variable H : Host.
Variable m : FSM.




End Deferred.

Section Rejection.
Variable H : Host.
Variable m : FSM.



End Rejection.

Section Inherited.
Variable H : Host.

Lemma lookup_assign_same {A : Type} (k : string) (a : A) (o : list (string * A)) :
  lookup k (assign k a o) = Some a.
Proof.
  induction o as [| [k' a'] o IH]; simpl.
  - now rewrite String.eqb_refl.
  - destruct (String.eqb k k') eqn:E; simpl; rewrite E; [reflexivity | exact IH].
Qed.

(** C9. For an event name that the handlers object does not own but
    inherits from [Object.prototype], [State.fire] does not raise
    [UnknownEvent]: the [in] test succeeds and the inherited member is
    invoked with [innerArgs], exactly as a registered handler returning the
    same value would be; [FSM.fire] then validates and commits what it
    returned. *)
Theorem inherited_member_taken_for_handler
        (self : list value -> store -> outcome unit) (s : State) (e : value)
        (rest : list value) (data : value) (st : store) (inh : inherited) :
  lookup (to_string e) (_handlers s) = None ->
  Object_prototype H (to_string e) = Some inh ->
  State_fire H self s (e :: rest) data st <> Raise (UnknownEvent e (_name s)) st
  /\ State_fire H self s (e :: rest) data st
     = match inh with
       | Callable f => match f (data :: rest) with
                       | Some v => Ok v st
                       | None => Raise TypeError st
                       end
       | NotCallable => Raise TypeError st
       end
  /\ forall f v,
       inh = Callable f -> f (data :: rest) = Some v ->
       State_fire H self s (e :: rest) data st
       = State_fire H self
           (mkState (_name s) (assign (to_string e) (fun _ => Return v) (_handlers s)))
           (e :: rest) data st
       /\ forall (m : FSM) (d : nat),
            lookup (to_string (_currentState st)) (_states m) = Some s ->
            data = _currentData st ->
            fire H m (S d) (e :: rest) st
            = if nullish v || length_lt v 2
              then Raise (MalformedTransition e (_currentState st)) st
              else after_commit H m (fire H m d) (_currentState st)
                     (set_current (js_index v 0) (js_index v 1) st).
Proof.
  intros Hown Hproto.
  assert (E : forall self', State_fire H self' s (e :: rest) data st
              = match inh with
                | Callable f => match f (data :: rest) with
                                | Some v => Ok v st
                                | None => Raise TypeError st
                                end
                | NotCallable => Raise TypeError st
                end).
  { intros self'. unfold State_fire. now rewrite Hown, Hproto. }
  split; [| split; [apply E |]].
  - rewrite E. destruct inh as [f |]; [destruct (f (data :: rest)) |];
      discriminate.
  - intros f v -> Hf. split.
    + rewrite E, Hf. unfold State_fire; simpl.
      now rewrite lookup_assign_same.
    + intros m d Hs ->. simpl. unfold fire_body. rewrite Hs.
      rewrite E, Hf. reflexivity.
Qed.
End Inherited.

Section Describe.
Lemma In_insert_index {A : Type} (x e : N * (string * A)) (l : list (N * (string * A))) :
  In x (insert_index e l) <-> x = e \/ In x l.
Proof.
  induction l as [| e' l IH]; simpl.
  - intuition congruence.
  - destruct (fst e <=? fst e')%N; simpl; [intuition congruence |].
    rewrite IH. intuition congruence.
Qed.

Lemma In_for_in {A : Type} (x : string * A) (o : list (string * A)) :
  In x (for_in o) <-> In x o.
Proof.
  unfold for_in.
  induction o as [| [k a] o IH]; simpl; [tauto |].
  destruct (for_in_split o) as [ix others].
  destruct (array_index k) as [n |]; simpl.
  - rewrite in_app_iff, in_map_iff in *.
    rewrite <- IH. split.
    + intros [[y [Hy Hin]] | Hin].
      * apply In_insert_index in Hin. destruct Hin as [-> | Hin].
        -- now left.
        -- right. left. now exists y.
      * right. now right.
    + intros [<- | [[y [Hy Hin]] | Hin]].
      * left. exists (n, (k, a)). split; [reflexivity |].
        apply In_insert_index. now left.
      * left. exists y. split; [exact Hy |].
        apply In_insert_index. now right.
      * now right.
  - rewrite in_app_iff in *. simpl. rewrite <- IH. tauto.
Qed.

Lemma lookup_In {A : Type} (k : string) (a : A) (o : list (string * A)) :
  lookup k o = Some a -> In (k, a) o.
Proof.
  induction o as [| [k' a'] o IH]; simpl; [discriminate |].
  destruct (String.eqb k k') eqn:E.
  - apply String.eqb_eq in E. intros [= ->]. left. now subst.
  - intros Hl. right. now apply IH.
Qed.

Lemma hasOwnProperty_In {A : Type} (k : string) (o : list (string * A)) :
  hasOwnProperty o k = true <-> In k (map fst o).
Proof.
  unfold hasOwnProperty.
  induction o as [| [k' a'] o IH]; simpl; [intuition discriminate |].
  destruct (String.eqb k k') eqn:E.
  - apply String.eqb_eq in E. subst. intuition.
  - apply String.eqb_neq in E. rewrite IH. intuition congruence.
Qed.

Lemma describe_states_spec (self : list value -> store -> outcome unit)
      (l : list (string * State)) (st : store) :
  Forall (fun e => hasOwnProperty (_handlers (snd e)) "hasOwnProperty" = false) l ->
  describe_states self l st
  = Ok (map (fun e => mkStateDescription (_name (snd e))
                        (map fst (for_in (_handlers (snd e))))) l) st.
Proof.
  induction 1 as [| [k s] l Hs _ IH]; simpl in *; [reflexivity |].
  unfold State_describe. unfold hasOwnProperty in Hs.
  destruct (lookup "hasOwnProperty" (_handlers s)); [discriminate |].
  simpl. now rewrite IH.
Qed.

End Describe.

(** * The properties on concrete machines *)


(** C1. On the tutorial machine in state [producer], which registers no
    handler named [toString], [fire("toString")] raises no [UnknownEvent]:
    the member inherited from [Object.prototype] is called, its result
    passes the validation, and the machine moves to state ["["] with data
    ["o"], notifying the listener. *)
Theorem toString_event_is_dispatched :
  option_map (fun s => hasOwnProperty (_handlers s) "toString")
             (lookup "producer" (_states (fst tutorial))) = Some false
  /\ fire browser (fst tutorial) 1 [VStr "toString"] (snd tutorial)
     = Ok tt (mkStore (VStr "[") (VStr "o") [] [] []
                      [Notified 0 (VStr "producer") (VStr "[");
                       Logged "producer -> ["]).
Proof. split; reflexivity. Qed.

(** A handler that returns [null] is turned down. *)
Lemma malformed_transition_guard_witness :
  fire browser (fst typo_machine) 1 [VStr "null"] (snd typo_machine)
  = Raise (Thrown (msg_malformed (VStr "null") (VStr "a")))
          (mkStore (VStr "a") (VNum 0) [say_callback] [say_later] [] []).
Proof.
  refine (proj1 (malformed_transition_guard browser (fst typo_machine) 0 _ _
                   (VStr "null") [] (snd typo_machine) _ VNull
                   eq_refl eq_refl eq_refl) _).
  left. reflexivity.
Defined.

(** Three elements are not a pair, and the call goes through. *)
Lemma three_elements_are_accepted :
  exec (fire browser (fst triple_machine) 0)
       (Return (VArr [VStr "a"; VNum 1; VNum 2])) (snd triple_machine)
  = Ok (VArr [VStr "a"; VNum 1; VNum 2]) (snd triple_machine)
  /\ js_length (VArr [VStr "a"; VNum 1; VNum 2]) = Some 3
  /\ fire browser (fst triple_machine) 1 [VStr "go"] (snd triple_machine)
     = Ok tt (mkStore (VStr "a") (VNum 1) [] [] [] []).
Proof. repeat split. Qed.

(** The state [typo] was never declared and is committed all the same. *)
Lemma fire_commits_pair_witness :
  exists st',
    fire browser (fst typo_machine) 1 [VStr "go"] (snd typo_machine) = Ok tt st'
    /\ _currentState st' = VStr "typo"
    /\ _currentData st' = VNum 1.
Proof.
  refine (proj2 (fire_commits_pair browser (fst typo_machine) 0 _ _
                   (VStr "go") [] (snd typo_machine) _ (VStr "typo") (VNum 1)
                   eq_refl eq_refl eq_refl) _ _).
  - repeat constructor.
  - constructor.
Defined.







(** [toString] on the tutorial machine in state [producer]. *)
Lemma inherited_member_taken_for_handler_witness :
  exists s,
    lookup "producer" (_states (fst tutorial)) = Some s
    /\ State_fire browser (fire browser (fst tutorial) 0) s [VStr "toString"]
                  (VNum 0) (snd tutorial)
       <> Raise (UnknownEvent (VStr "toString") "producer") (snd tutorial)
    /\ State_fire browser (fire browser (fst tutorial) 0) s [VStr "toString"]
                  (VNum 0) (snd tutorial)
       = Ok (VStr "[object Object]") (snd tutorial).
Proof.
  eexists. split; [reflexivity |].
  match goal with
  | |- State_fire _ _ ?s _ _ _ <> _ /\ _ =>
      pose proof (inherited_member_taken_for_handler browser
                    (fire browser (fst tutorial) 0) s (VStr "toString") [] (VNum 0)
                    (snd tutorial) _ eq_refl eq_refl) as [A [B _]]
  end.
  split; [exact A | exact B].
Defined.






(** * The builders *)

Section Tables.
Context {A : Type}.

Lemma lookup_assign_other (k k' : string) (a : A) (o : list (string * A)) :
  k <> k' -> lookup k (assign k' a o) = lookup k o.
Proof.
  intros Hne. induction o as [| [k0 a0] o IH]; simpl.
  - apply String.eqb_neq in Hne. now rewrite Hne.
  - destruct (String.eqb k' k0) eqn:E; simpl.
    + apply String.eqb_eq in E. subst k0.
      apply String.eqb_neq in Hne. now rewrite Hne.
    + now rewrite IH.
Qed.

Lemma keys_assign (k k' : string) (a : A) (o : list (string * A)) :
  In k (map fst (assign k' a o)) <-> k = k' \/ In k (map fst o).
Proof.
  induction o as [| [k0 a0] o IH]; simpl.
  - intuition.
  - destruct (String.eqb k' k0) eqn:E; simpl.
    + apply String.eqb_eq in E. subst k0. intuition.
    + rewrite IH. intuition.
Qed.

Lemma NoDup_assign (k : string) (a : A) (o : list (string * A)) :
  NoDup (map fst o) -> NoDup (map fst (assign k a o)).
Proof.
  induction o as [| [k0 a0] o IH]; simpl; intros Hnd.
  - constructor; [intros [] | constructor].
  - inversion Hnd as [| ? ? Hnot Hnd']; subst.
    destruct (String.eqb k k0) eqn:E; simpl.
    + now constructor.
    + constructor; [| now apply IH].
      rewrite keys_assign. intros [-> | Hin]; [| contradiction].
      now rewrite String.eqb_refl in E.
Qed.

Lemma hasOwnProperty_assign (k k' : string) (a : A) (o : list (string * A)) :
  hasOwnProperty (assign k' a o) k = String.eqb k k' || hasOwnProperty o k.
Proof.
  destruct (String.eqb k k') eqn:E; simpl.
  - apply String.eqb_eq in E. subst k'.
    unfold hasOwnProperty. now rewrite lookup_assign_same.
  - apply String.eqb_neq in E.
    unfold hasOwnProperty. now rewrite lookup_assign_other.
Qed.

Lemma Permutation_insert_index (e : N * (string * A)) (l : list (N * (string * A))) :
  Permutation (insert_index e l) (e :: l).
Proof.
  induction l as [| e' l IH]; simpl; [reflexivity |].
  destruct (fst e <=? fst e')%N; [reflexivity |].
  rewrite IH. apply perm_swap.
Qed.

Lemma Permutation_for_in (o : list (string * A)) : Permutation (for_in o) o.
Proof.
  unfold for_in. induction o as [| [k a] o IH]; simpl; [reflexivity |].
  destruct (for_in_split o) as [ix others].
  destruct (array_index k) as [n |]; simpl.
  - rewrite (Permutation_map snd (Permutation_insert_index (n, (k, a)) ix)).
    simpl. now constructor.
  - rewrite <- Permutation_middle. now constructor.
Qed.

Lemma lookup_NoDup_In (k : string) (a : A) (o : list (string * A)) :
  NoDup (map fst o) -> In (k, a) o -> lookup k o = Some a.
Proof.
  induction o as [| [k0 a0] o IH]; simpl; intros Hnd Hin; [contradiction |].
  inversion Hnd as [| ? ? Hnot Hnd']; subst.
  destruct Hin as [[= -> ->] | Hin].
  - now rewrite String.eqb_refl.
  - destruct (String.eqb k k0) eqn:E.
    + apply String.eqb_eq in E. subst k0.
      exfalso. apply Hnot. apply in_map_iff. now exists (k, a).
    + now apply IH.
Qed.

(** Enumerating a table with [for (k in o)] and copying it entry by entry
    gives a table with the same lookups. *)
Lemma lookup_for_in (k : string) (o : list (string * A)) :
  NoDup (map fst o) -> lookup k (for_in o) = lookup k o.
Proof.
  intros Hnd.
  assert (Hnd' : NoDup (map fst (for_in o))).
  { eapply Permutation_NoDup; [| exact Hnd].
    apply Permutation_map. symmetry. apply Permutation_for_in. }
  destruct (lookup k o) as [a |] eqn:E.
  - apply lookup_NoDup_In; [exact Hnd' |].
    apply In_for_in. now apply lookup_In.
  - destruct (lookup k (for_in o)) as [a |] eqn:E'; [| reflexivity].
    apply lookup_In in E'. apply (proj1 (In_for_in _ _)) in E'.
    rewrite (lookup_NoDup_In _ _ _ Hnd E') in E. discriminate.
Qed.

Lemma lookup_map_values {B : Type} (f : A -> B) (k : string) (o : list (string * A)) :
  lookup k (map (fun e => (fst e, f (snd e))) o) = option_map f (lookup k o).
Proof.
  induction o as [| [k0 a0] o IH]; simpl; [reflexivity |].
  now destruct (String.eqb k k0).
Qed.
End Tables.

Section Building.

Lemma configure_app (a b : list builder_call) (x : FSMBuilder.t) :
  configure (a ++ b) x
  = match configure a x with Some y => configure b y | None => None end.
Proof.
  revert x. induction a as [| c a IH]; intros x; simpl; [reflexivity |].
  destruct (call_builder c x); [apply IH | reflexivity].
Qed.


Lemma on_spec (e : string) (cb : handler) (x y : StateBuilder.t) :
  StateBuilder.on e cb x = Some y ->
  StateBuilder._name y = StateBuilder._name x
  /\ StateBuilder._handlers y = assign e cb (StateBuilder._handlers x).
Proof.
  unfold StateBuilder.on. destruct (String.eqb e "__proto__"); [discriminate |].
  intros [= <-]. split; reflexivity.
Qed.

Lemma initialize_name (init : list (string * handler)) : forall x y,
  StateBuilder.initialize init x = Some y ->
  StateBuilder._name y = StateBuilder._name x.
Proof.
  induction init as [| [e cb] init IH]; intros x y; simpl.
  - now intros [= <-].
  - destruct (StateBuilder.on e cb x) as [x' |] eqn:E; [| discriminate].
    intros Hy. rewrite (IH _ _ Hy). now apply on_spec in E.
Qed.



(** What one call does to the builder. *)
Lemma call_builder_spec (c : builder_call) (x y : FSMBuilder.t) :
  call_builder c x = Some y ->
  (NoDup (map fst (FSMBuilder._states x)) -> NoDup (map fst (FSMBuilder._states y)))
  /\ (forall k, hasOwnProperty (FSMBuilder._states y) k
                = hasOwnProperty (FSMBuilder._states x) k
                  || (declares k c && negb (String.eqb k "__proto__")))
  /\ (forall k, declares k c = false ->
                lookup k (FSMBuilder._states y) = lookup k (FSMBuilder._states x))
  /\ (is_StartWith c = false ->
      FSMBuilder._initialState y = FSMBuilder._initialState x
      /\ FSMBuilder._initialData y = FSMBuilder._initialData x)
  /\ FSMBuilder._onStateChangedListeners y
     = FSMBuilder._onStateChangedListeners x ++ registered_listeners [c].
Proof.
  destruct c as [s d | name init | l]; simpl.
  - intros [= <-]; simpl. repeat split; auto.
    + intros k. now rewrite orb_false_r.
    + discriminate.
    + discriminate.
    + now rewrite app_nil_r.
  - unfold FSMBuilder.when.
    destruct (StateBuilder.initialize init (StateBuilder.new name)) as [state |];
      [| discriminate].
    intros [= <-]; simpl.
    destruct (String.eqb name "__proto__") eqn:P.
    + apply String.eqb_eq in P. subst name.
      repeat split; auto.
      * intros k. destruct (String.eqb "__proto__" k) eqn:E; simpl.
        -- apply String.eqb_eq in E. subst k. simpl. now rewrite orb_false_r.
        -- now rewrite orb_false_r.
      * now rewrite app_nil_r.
    + repeat split; auto.
      * now apply NoDup_assign.
      * intros k. rewrite hasOwnProperty_assign.
        rewrite (String.eqb_sym name k).
        destruct (String.eqb k name) eqn:E; simpl.
        -- apply String.eqb_eq in E. subst k. rewrite P. simpl.
           now rewrite orb_true_r.
        -- now rewrite orb_false_r.
      * intros k Hk. apply lookup_assign_other.
        intros ->. now rewrite String.eqb_refl in Hk.
      * now rewrite app_nil_r.
  - intros [= <-]; simpl. repeat split; auto.
    + intros k. now rewrite orb_false_r.
Qed.

Lemma configure_spec (calls : list builder_call) : forall x y,
  configure calls x = Some y ->
  (NoDup (map fst (FSMBuilder._states x)) -> NoDup (map fst (FSMBuilder._states y)))
  /\ (forall k, hasOwnProperty (FSMBuilder._states y) k
                = hasOwnProperty (FSMBuilder._states x) k
                  || (existsb (declares k) calls && negb (String.eqb k "__proto__")))
  /\ (forall k, existsb (declares k) calls = false ->
                lookup k (FSMBuilder._states y) = lookup k (FSMBuilder._states x))
  /\ (existsb is_StartWith calls = false ->
      FSMBuilder._initialState y = FSMBuilder._initialState x
      /\ FSMBuilder._initialData y = FSMBuilder._initialData x)
  /\ FSMBuilder._onStateChangedListeners y
     = FSMBuilder._onStateChangedListeners x ++ registered_listeners calls.
Proof.
  induction calls as [| c calls IH]; intros x y; simpl.
  - intros [= <-]. repeat split; auto.
    + intros k. now rewrite orb_false_r.
    + now rewrite app_nil_r.
  - destruct (call_builder c x) as [x' |] eqn:E; [| discriminate].
    intros Hy.
    destruct (call_builder_spec c x x' E) as [N1 [O1 [L1 [S1 R1]]]].
    destruct (IH x' y Hy) as [N2 [O2 [L2 [S2 R2]]]].
    repeat split.
    + auto.
    + intros k. rewrite O2, O1.
      destruct (hasOwnProperty (FSMBuilder._states x) k),
               (declares k c), (existsb (declares k) calls),
               (String.eqb k "__proto__"); reflexivity.
    + intros k Hk. apply orb_false_iff in Hk. destruct Hk as [Hc Hcs].
      now rewrite (L2 k Hcs), (L1 k Hc).
    + apply orb_false_iff in H. destruct H as [Hc Hcs].
      destruct (S2 Hcs) as [-> _]. now destruct (S1 Hc).
    + apply orb_false_iff in H. destruct H as [Hc Hcs].
      destruct (S2 Hcs) as [_ ->]. now destruct (S1 Hc).
    + rewrite R2, R1. simpl. rewrite app_nil_r. now rewrite <- app_assoc.
Qed.

Lemma create_inv (calls : list builder_call) (m : FSM) (st : store) :
  create calls = Some (Built m st) ->
  exists b,
    configure calls FSMBuilder.new = Some b
    /\ hasOwnProperty (FSMBuilder._states b) "hasOwnProperty" = false
    /\ m = mkFSM (map (fun e => (fst e, StateBuilder._build (snd e)))
                      (for_in (FSMBuilder._states b)))
                 (FSMBuilder._onStateChangedListeners b)
    /\ st = FSM_new (FSMBuilder._initialState b) (FSMBuilder._initialData b).
Proof.
  unfold create. destruct (configure calls FSMBuilder.new) as [b |]; [| discriminate].
  simpl. unfold FSMBuilder._build.
  destruct (hasOwnProperty (FSMBuilder._states b) "hasOwnProperty") eqn:E;
    [discriminate |].
  intros [= <- <-]. exists b. repeat split. exact E.
Qed.

Lemma built_lookup (calls : list builder_call) (b : FSMBuilder.t) (k : string) :
  configure calls FSMBuilder.new = Some b ->
  lookup k (map (fun e => (fst e, StateBuilder._build (snd e)))
                (for_in (FSMBuilder._states b)))
  = option_map StateBuilder._build (lookup k (FSMBuilder._states b)).
Proof.
  intros Hb. rewrite lookup_map_values, lookup_for_in; [reflexivity |].
  apply (configure_spec calls _ _ Hb). constructor.
Qed.
End Building.

Section Created.

(** X1. The machine [create] returns starts from the state and data of the
    last call to [startWith], or from [(null, null)] when the initializer
    never calls it, with both queues empty. *)
Theorem create_initial_store (calls : list builder_call) (m : FSM) (st : store) :
  create calls = Some (Built m st) ->
  (forall pre s d post,
      calls = pre ++ StartWith s d :: post ->
      existsb is_StartWith post = false ->
      st = FSM_new s d)
  /\ (existsb is_StartWith calls = false -> st = FSM_new VNull VNull).
Proof.
  intros Hc. destruct (create_inv calls m st Hc) as [b [Hb [_ [_ ->]]]].
  split.
  - intros pre s d post -> Hpost.
    rewrite configure_app in Hb.
    destruct (configure pre FSMBuilder.new) as [b1 |]; [| discriminate].
    simpl in Hb.
    destruct (configure_spec post _ _ Hb) as [_ [_ [_ [S _]]]].
    destruct (S Hpost) as [-> ->]. reflexivity.
  - intros Hnone.
    destruct (configure_spec calls _ _ Hb) as [_ [_ [_ [S _]]]].
    destruct (S Hnone) as [-> ->]. reflexivity.
Qed.


(** X3. The state table of the built machine has exactly one entry for
    every declared state name, except [__proto__], which declares nothing. *)
Theorem built_table_keys (calls : list builder_call) (m : FSM) (st : store) :
  create calls = Some (Built m st) ->
  NoDup (map fst (_states m))
  /\ forall k, hasOwnProperty (_states m) k
               = existsb (declares k) calls && negb (String.eqb k "__proto__").
Proof.
  intros Hc. destruct (create_inv _ m st Hc) as [b [Hb [_ [-> _]]]].
  destruct (configure_spec calls _ _ Hb) as [N [O _]].
  simpl. split.
  - rewrite map_map. simpl.
    eapply Permutation_NoDup; [| apply N; constructor].
    apply Permutation_map. symmetry. apply Permutation_for_in.
  - intros k. unfold hasOwnProperty at 1.
    rewrite (built_lookup _ b k Hb).
    specialize (O k). unfold hasOwnProperty in O at 1 2. simpl in O.
    destruct (lookup k (FSMBuilder._states b)); simpl; exact O.
Qed.

(** X4. When the initializer is carried out, [create] fails, with a
    [TypeError], exactly when a state is declared under the name
    [hasOwnProperty]. *)
Theorem create_fails_on_shadowed_method (calls : list builder_call) (r : built) :
  create calls = Some r ->
  (r = BuildError TypeError <-> existsb (declares "hasOwnProperty") calls = true)
  /\ (forall e, r = BuildError e -> e = TypeError).
Proof.
  unfold create. destruct (configure calls FSMBuilder.new) as [b |] eqn:Hb;
    [| discriminate].
  simpl. intros [= <-]. unfold FSMBuilder._build.
  destruct (configure_spec calls _ _ Hb) as [_ [O _]].
  specialize (O "hasOwnProperty"). simpl in O. rewrite andb_true_r in O.
  rewrite O. change (hasOwnProperty (FSMBuilder._states FSMBuilder.new) "hasOwnProperty")
    with false. simpl.
  destruct (existsb (declares "hasOwnProperty") calls); split.
  - tauto.
  - now intros e [= <-].
  - split; discriminate.
  - discriminate.
Qed.

(** X5. The listeners of the built machine are those passed to
    [onStateChanged], in call order. *)
Theorem built_listeners (calls : list builder_call) (m : FSM) (st : store) :
  create calls = Some (Built m st) ->
  _onStateChangedListeners m = registered_listeners calls.
Proof.
  intros Hc. destruct (create_inv _ m st Hc) as [b [Hb [_ [-> _]]]].
  destruct (configure_spec calls _ _ Hb) as [_ [_ [_ [_ R]]]].
  simpl. now rewrite R.
Qed.

(** X6. [create] does not check the initial state: when no declaration
    bears its name, the machine is built all the same, and every [fire] call
    raises [UnknownState] and leaves the store as it was. *)
Theorem undeclared_initial_state_fails_on_fire (H : Host) (calls : list builder_call)
        (m : FSM) (st : store) :
  create calls = Some (Built m st) ->
  existsb (declares (to_string (_currentState st))) calls = false ->
  forall d args, fire H m (S d) args st = Raise UnknownState st.
Proof.
  intros Hc Hnone d args.
  destruct (built_table_keys calls m st Hc) as [_ O].
  specialize (O (to_string (_currentState st))).
  rewrite Hnone in O. simpl in O. unfold hasOwnProperty in O.
  simpl. unfold fire_body.
  now destruct (lookup (to_string (_currentState st)) (_states m)).
Qed.
End Created.

(** * What every [fire] call keeps, whatever the application code does *)

Section Conservation.

Lemma extends_refl (st : store) : extends st st.
Proof. split; exists []; now rewrite app_nil_r. Qed.

Lemma extends_trans (a b c : store) : extends a b -> extends b c -> extends a c.
Proof.
  intros [[e1 T1] [n1 N1]] [[e2 T2] [n2 N2]]. split.
  - exists (e1 ++ e2). now rewrite T2, T1, app_assoc.
  - exists (n1 ++ n2). now rewrite N2, N1, app_assoc.
Qed.

Lemma follows_refl (st : store) : follows st st.
Proof. exists [], []. rewrite !app_nil_r. repeat split; auto. Qed.

Lemma follows_trans (a b c : store) : follows a b -> follows b c -> follows a c.
Proof.
  intros [e1 [n1 [T1 [N1 [Q1 O1]]]]] [e2 [n2 [T2 [N2 [Q2 O2]]]]].
  exists (e1 ++ e2), (n1 ++ n2).
  split; [now rewrite T2, T1, app_assoc |].
  split; [now rewrite N2, N1, app_assoc |].
  split; intros cb Hin.
  - destruct (Q1 cb Hin) as [Hb | Hr].
    + destruct (Q2 cb Hb) as [Hc | Hr]; [now left | right].
      apply in_or_app. now right.
    + right. apply in_or_app. now left.
  - destruct (O1 cb Hin) as [Hb | Hr].
    + destruct (O2 cb Hb) as [Hc | Hr]; [now left | right].
      apply in_or_app. now right.
    + right. apply in_or_app. now left.
Qed.

Lemma follows_extends (a b : store) : follows a b -> extends a b.
Proof. intros [e [n [T [N _]]]]. split; [now exists e | now exists n]. Qed.

Lemma flushed_follows (a b : store) : flushed a b -> follows a b.
Proof.
  intros [e [n [T [N [Q O]]]]]. exists e, n. repeat split; auto.
Qed.

Lemma follows_observe (e : event) (st : store) : follows st (observe e st).
Proof.
  exists [e], []. simpl. rewrite app_nil_r. repeat split; auto.
Qed.

Lemma follows_execute (cb : code) (st : store) : follows st (execute cb st).
Proof.
  exists [], []. simpl. rewrite !app_nil_r. repeat split; auto.
  intros c Hin. left. apply in_or_app. now left.
Qed.

Lemma follows_executeOut (cb : code) (st : store) : follows st (executeOut cb st).
Proof.
  exists [], []. simpl. rewrite !app_nil_r. repeat split; auto.
  intros c Hin. left. apply in_or_app. now left.
Qed.

Lemma follows_set_current (s d : value) (st : store) : follows st (set_current s d st).
Proof. exists [], []. simpl. rewrite !app_nil_r. repeat split; auto. Qed.

Lemma outcome_sat_weaken {A : Type} (P P' Q Q' : store -> Prop) (o : outcome A) :
  (forall st, P st -> P' st) -> (forall st, Q st -> Q' st) ->
  outcome_sat P Q o -> outcome_sat P' Q' o.
Proof. intros HP HQ. destruct o; simpl; auto. Qed.

Section Self.
Variable self : list value -> store -> outcome unit.
Hypothesis self_flushes :
  forall args st, outcome_sat (flushed st) (extends st) (self args st).

Lemma exec_follows (c : code) : forall st,
  outcome_sat (follows st) (extends st) (exec self c st).
Proof.
  induction c as [v | s k IH | cb _ k IH | cb _ k IH | args k IH | msg];
    intros st; simpl.
  - apply follows_refl.
  - eapply outcome_sat_weaken; [| | apply IH].
    + intros st'. apply follows_trans, follows_observe.
    + intros st'. apply extends_trans, follows_extends, follows_observe.
  - eapply outcome_sat_weaken; [| | apply IH].
    + intros st'. apply follows_trans, follows_execute.
    + intros st'. apply extends_trans, follows_extends, follows_execute.
  - eapply outcome_sat_weaken; [| | apply IH].
    + intros st'. apply follows_trans, follows_executeOut.
    + intros st'. apply extends_trans, follows_extends, follows_executeOut.
  - pose proof (self_flushes args st) as Hs.
    destruct (self args st) as [[] st1 | e st1]; simpl in *; [| exact Hs].
    eapply outcome_sat_weaken; [| | apply IH].
    + intros st'. apply follows_trans. now apply flushed_follows.
    + intros st'. apply extends_trans, follows_extends. now apply flushed_follows.
  - apply extends_refl.
Qed.

Lemma notify_follows (oldState : value) (ls : list listener) : forall i st,
  outcome_sat (follows st) (extends st) (notify self oldState ls i st).
Proof.
  induction ls as [| l ls IH]; intros i st; simpl; [apply follows_refl |].
  set (st0 := observe (Notified i oldState (_currentState st)) st).
  pose proof (exec_follows (l oldState (_currentState st)) st0) as He.
  destruct (exec self (l oldState (_currentState st)) st0) as [v st1 | e st1];
    simpl in *.
  - eapply outcome_sat_weaken; [| | apply IH].
    + intros st'. apply follows_trans.
      eapply follows_trans; [apply follows_observe | exact He].
    + intros st'. apply extends_trans, follows_extends.
      eapply follows_trans; [apply follows_observe | exact He].
  - eapply extends_trans; [| exact He]. apply follows_extends, follows_observe.
Qed.

Lemma run_all_runs (cbs : list code) : forall st,
  outcome_sat
    (fun st' => exists evs new,
                  trace st' = trace st ++ evs
                  /\ timers st' = timers st ++ new
                  /\ forall cb, In cb cbs -> In (Ran cb) evs)
    (extends st) (run_all self cbs st).
Proof.
  induction cbs as [| cb cbs IH]; intros st; simpl.
  - exists [], []. rewrite !app_nil_r. repeat split; auto; intros cb [].
  - set (st0 := observe (Ran cb) st).
    pose proof (exec_follows cb st0) as He.
    destruct (exec self cb st0) as [v st1 | e st1]; simpl in *.
    + apply follows_extends in He. destruct He as [[e1 T1] [n1 N1]].
      specialize (IH st1).
      destruct (run_all self cbs st1) as [[] st2 | e st2]; simpl in *.
      * destruct IH as [e2 [n2 [T2 [N2 R2]]]].
        exists ((Ran cb :: e1) ++ e2), (n1 ++ n2).
        split; [rewrite T2, T1; simpl; now rewrite <- !app_assoc |].
        split; [rewrite N2, N1; simpl; now rewrite <- !app_assoc |].
        intros c [<- | Hin]; [now left |].
        apply in_or_app. right. now apply R2.
      * eapply extends_trans; [| exact IH].
        split; [exists (Ran cb :: e1) | exists n1].
        -- rewrite T1. simpl. now rewrite <- app_assoc.
        -- exact N1.
    + eapply extends_trans; [| exact He]. apply follows_extends, follows_observe.
Qed.
End Self.

Lemma fire_flushes (H : Host) (m : FSM) (d : nat) : forall args st,
  outcome_sat (flushed st) (extends st) (fire H m d args st).
Proof.
  induction d as [| d IH]; intros args st; simpl; [apply extends_refl |].
  unfold fire_body.
  destruct (lookup (to_string (_currentState st)) (_states m)) as [s |];
    [| apply extends_refl].
  assert (Hsf : outcome_sat (follows st) (extends st)
                  (State_fire H (fire H m d) s args (_currentData st) st)).
  { unfold State_fire. destruct args as [| e rest]; [apply extends_refl |].
    destruct (lookup (to_string e) (_handlers s)) as [h |].
    - now apply exec_follows.
    - destruct (Object_prototype H (to_string e)) as [[f |] |];
        [destruct (f (_currentData st :: rest)) | |];
        simpl; try apply extends_refl. apply follows_refl. }
  destruct (State_fire H (fire H m d) s args (_currentData st) st)
    as [r st1 | e st1]; simpl in *; [| exact Hsf].
  destruct (nullish r || length_lt r 2); [now apply follows_extends |].
  set (st2 := set_current (js_index r 0) (js_index r 1) st1).
  assert (H12 : follows st st2).
  { eapply follows_trans; [exact Hsf | apply follows_set_current]. }
  unfold after_commit.
  assert (Hn : outcome_sat (follows st2) (extends st2)
                 (notify_change H m (fire H m d) (_currentState st) st2)).
  { unfold notify_change.
    destruct (negb (loose_eq H (_currentState st) (_currentState st2)));
      [now apply notify_follows | apply follows_refl]. }
  destruct (notify_change H m (fire H m d) (_currentState st) st2)
    as [[] st3 | e st3]; simpl in *.
  2:{ eapply extends_trans; [apply follows_extends; exact H12 | exact Hn]. }
  assert (H13 : follows st st3) by (eapply follows_trans; eassumption).
  unfold drain.
  pose proof (run_all_runs (fire H m d) IH (_toExecute st3) (set_queues [] [] st3))
    as Hr.
  destruct (run_all (fire H m d) (_toExecute st3) (set_queues [] [] st3))
    as [[] st5 | e st5]; simpl in *.
  - destruct Hr as [e5 [n5 [T5 [N5 R5]]]].
    destruct H13 as [e3 [n3 [T3 [N3 [Q3 O3]]]]].
    exists (e3 ++ e5), ((n3 ++ n5) ++ _toExecuteOut st3).
    rewrite schedule_all_spec. simpl.
    split; [now rewrite T5, T3, app_assoc |].
    split; [now rewrite N5, N3, !app_assoc |].
    split; intros cb Hin.
    + apply in_or_app. destruct (Q3 cb Hin) as [Hq | Hran]; [right | now left].
      now apply R5.
    + apply in_or_app. destruct (O3 cb Hin) as [Hq | Hnew]; [now right | left].
      apply in_or_app. now left.
  - eapply extends_trans; [apply follows_extends; exact H13 |].
    destruct Hr as [[e5 T5] [n5 N5]]. split; [now exists e5 | now exists n5].
Qed.

(** X7. No [fire] call, however it ends and whatever the handlers,
    listeners and callbacks do (nested [fire] calls included), removes or
    reorders a callback already handed to [setTimeout]: the timer queue
    after the call extends the one before. *)
Theorem fire_keeps_timers (H : Host) (m : FSM) (d : nat) (args : list value)
        (st : store) :
  exists new, timers (outcome_store (fire H m d args st)) = timers st ++ new.
Proof.
  pose proof (fire_flushes H m d args st) as F.
  destruct (fire H m d args st) as [[] st' | e st']; simpl in *.
  - destruct F as [_ [n [_ [N _]]]]. now exists n.
  - destruct F as [_ [n N]]. now exists n.
Qed.

End Conservation.

(** * Application code that throws *)

Section Throwing.
Variable H : Host.
Variable m : FSM.

Lemma exec_thrown (self : list value -> store -> outcome unit) (c : code)
      (msg : string) : forall st,
  thrown c = Some msg -> exec self c st = Raise (Thrown msg) (effects c st).
Proof.
  induction c as [v | s k IH | cb _ k IH | cb _ k IH | args k IH | msg'];
    intros st Hc; simpl in *; try discriminate.
  - rewrite (IH _ Hc). unfold effects, observe; simpl. now rewrite <- !app_assoc.
  - rewrite (IH _ Hc). unfold effects, execute, set_queues; simpl.
    now rewrite <- !app_assoc.
  - rewrite (IH _ Hc). unfold effects, executeOut, set_queues; simpl.
    now rewrite <- !app_assoc.
  - injection Hc as ->. unfold effects; simpl. rewrite !app_nil_r. now destruct st.
Qed.

Lemma notif_trace_app (a b : value) (l1 l2 : list listener) : forall i,
  notif_trace a b i (l1 ++ l2)
  = notif_trace a b i l1 ++ notif_trace a b (i + List.length l1) l2.
Proof.
  induction l1 as [| l l1 IH]; intros i; simpl.
  - now rewrite Nat.add_0_r.
  - rewrite IH, <- !app_assoc. simpl. now rewrite Nat.add_succ_r.
Qed.



(** X10. When the handler throws without having called [fire], the call
    raises what the handler threw; the state and data are unchanged, no
    listener is invoked, nothing is run or handed to [setTimeout], and what
    the handler queued before throwing stays queued. *)
Theorem throwing_handler_changes_nothing (d : nat) (s : State) (h : handler)
        (e : value) (rest : list value) (st : store) (msg : string) :
  let body := h (_currentData st :: rest) in
  lookup (to_string (_currentState st)) (_states m) = Some s ->
  lookup (to_string e) (_handlers s) = Some h ->
  thrown body = Some msg ->
  exists st',
    fire H m (S d) (e :: rest) st = Raise (Thrown msg) st'
    /\ _currentState st' = _currentState st
    /\ _currentData st' = _currentData st
    /\ trace st' = trace st ++ logs body
    /\ filter is_notified (logs body) = []
    /\ filter is_ran (logs body) = []
    /\ timers st' = timers st
    /\ _toExecute st' = _toExecute st ++ execs body
    /\ _toExecuteOut st' = _toExecuteOut st ++ outs body.
Proof.
  intros body Hs Hh Ht. exists (effects body st).
  split.
  - rewrite (fire_handler H m d s h e rest st Hs Hh). fold body.
    now rewrite (exec_thrown _ _ _ _ Ht).
  - repeat split; auto using no_notification_in_logs, nothing_ran_in_logs.
Qed.


End Throwing.

(** * The earlier versions *)

Section Versions.

Lemma describe_states_v1_spec (self : list value -> store -> outcome unit)
      (l : list (string * State)) (st : store) :
  Forall (fun e => hasOwnProperty (_handlers (snd e)) "hasOwnProperty" = false) l ->
  describe_states_v1 self l st
  = Ok (map (fun e => mkStateDescription (_name (snd e))
                        (map fst (for_in (_handlers (snd e))))) l) st.
Proof.
  induction 1 as [| [k s] l Hs _ IH]; simpl in *; [reflexivity |].
  unfold State_describe_v1. unfold hasOwnProperty in Hs.
  destruct (lookup "hasOwnProperty" (_handlers s)); [discriminate |].
  simpl. now rewrite IH.
Qed.

(** X13. On a machine where no event is named [hasOwnProperty], the
    earlier [describe] ignores its argument: whatever is passed, it returns
    what the current [describe] returns without argument; the two agree on
    an argument that is [null], [undefined] or truthy, and where the current
    one returns the frozen snapshot the earlier one returns its
    serialization. *)
Theorem describe_v1_ignores_flag (H : Host) (m : FSM) (d : nat) (st : store)
        (flag : value) :
  Forall (fun e => hasOwnProperty (_handlers (snd e)) "hasOwnProperty" = false)
         (_states m) ->
  describe_v1 H m d st flag = describe H m d st VUndefined
  /\ (nullish flag || truthy flag = true ->
      describe H m d st flag = describe_v1 H m d st flag)
  /\ (forall r st', nullish flag || truthy flag = false ->
                    describe H m d st flag = Ok (Frozen r) st' ->
                    describe_v1 H m d st flag = Ok (Stringified " " r) st').
Proof.
  intros Hs.
  assert (Hfor : Forall (fun e => hasOwnProperty (_handlers (snd e)) "hasOwnProperty"
                                  = false) (for_in (_states m))).
  { rewrite Forall_forall in *. intros x Hx. apply Hs. now apply In_for_in. }
  unfold describe, describe_v1, describe_body, describe_body_v1.
  destruct (hasOwnProperty (_states m) "hasOwnProperty").
  - repeat split; auto; discriminate.
  - rewrite (describe_states_spec _ _ _ Hfor), (describe_states_v1_spec _ _ _ Hfor).
    simpl. split; [reflexivity |]. split.
    + now intros ->.
    + intros r st' ->. now intros [= <- <-].
Qed.

Section Agreement.
Variable H : Host.
Variable m : FSM.
Hypothesis Hm : machine_no_out m.

Lemma store_no_out_observe (e : event) (st : store) :
  store_no_out st -> store_no_out (observe e st).
Proof. intros [A B]. split; assumption. Qed.

Lemma store_no_out_execute (cb : code) (st : store) :
  no_out cb = true -> store_no_out st -> store_no_out (execute cb st).
Proof.
  intros Hcb [A B]. split; [exact A |]. simpl.
  apply Forall_app. split; [exact B | now constructor].
Qed.

Section SelfAgrees.
Variable self self1 : list value -> store -> outcome unit.
Hypothesis self_agrees :
  forall args st, store_no_out st ->
                  self args st = self1 args st
                  /\ store_no_out (outcome_store (self args st)).

Lemma exec_agrees (c : code) : forall st,
  no_out c = true -> store_no_out st ->
  exec self c st = exec_v1 self1 c st
  /\ store_no_out (outcome_store (exec self c st)).
Proof.
  induction c as [v | s k IH | cb _ k IH | cb _ k IH | args k IH | msg];
    intros st Hc Hst; simpl in *; try discriminate.
  - now split.
  - apply IH; [exact Hc | now apply store_no_out_observe].
  - apply andb_true_iff in Hc. destruct Hc as [Hcb Hk].
    apply IH; [exact Hk | now apply store_no_out_execute].
  - destruct (self_agrees args st Hst) as [E G]. rewrite <- E.
    destruct (self args st) as [[] st1 | e st1]; simpl in *.
    + now apply IH.
    + now split.
  - now split.
Qed.

Lemma notify_agrees (oldState : value) (ls : list listener) : forall i st,
  (forall l a b, In l ls -> no_out (l a b) = true) ->
  store_no_out st ->
  notify self oldState ls i st = notify_v1 self1 oldState ls i st
  /\ store_no_out (outcome_store (notify self oldState ls i st)).
Proof.
  induction ls as [| l ls IH]; intros i st Hls Hst; simpl; [now split |].
  destruct (exec_agrees (l oldState (_currentState st))
              (observe (Notified i oldState (_currentState st)) st))
    as [E G].
  { apply Hls. now left. }
  { now apply store_no_out_observe. }
  rewrite <- E.
  destruct (exec self (l oldState (_currentState st))
              (observe (Notified i oldState (_currentState st)) st))
    as [v st1 | e st1]; simpl in *.
  - apply IH; [| exact G]. intros l' a b Hin. apply Hls. now right.
  - now split.
Qed.

Lemma run_all_agrees (cbs : list code) : forall st,
  Forall (fun cb => no_out cb = true) cbs ->
  store_no_out st ->
  run_all self cbs st = run_all_v1 self1 cbs st
  /\ store_no_out (outcome_store (run_all self cbs st)).
Proof.
  induction cbs as [| cb cbs IH]; intros st Hcbs Hst; simpl; [now split |].
  inversion Hcbs as [| ? ? Hcb Hcbs']; subst.
  destruct (exec_agrees cb (observe (Ran cb) st) Hcb) as [E G].
  { now apply store_no_out_observe. }
  rewrite <- E.
  destruct (exec self cb (observe (Ran cb) st)) as [v st1 | e st1]; simpl in *.
  - now apply IH.
  - now split.
Qed.

Lemma fire_body_agrees (args : list value) (st : store) :
  store_no_out st ->
  fire_body H m self args st = fire_body_v1 H m self1 args st
  /\ store_no_out (outcome_store (fire_body H m self args st)).
Proof.
  intros Hst. unfold fire_body, fire_body_v1.
  destruct (lookup (to_string (_currentState st)) (_states m)) as [s |] eqn:Hs;
    [| now split].
  assert (Hsf : State_fire H self s args (_currentData st) st
                = State_fire_v1 H self1 s args (_currentData st) st
                /\ store_no_out
                     (outcome_store (State_fire H self s args (_currentData st) st))).
  { unfold State_fire, State_fire_v1. destruct args as [| e rest]; [now split |].
    destruct (lookup (to_string e) (_handlers s)) as [h |] eqn:Hh.
    - apply exec_agrees; [| exact Hst].
      destruct Hm as [Hh' _]. eapply Hh'; apply lookup_In; eassumption.
    - destruct (Object_prototype H (to_string e)) as [[f |] |];
        [destruct (f (_currentData st :: rest)) | |]; now split. }
  destruct Hsf as [E G]. rewrite <- E.
  destruct (State_fire H self s args (_currentData st) st) as [r st1 | e st1];
    simpl in *; [| now split].
  destruct (nullish r || length_lt r 2); [now split |].
  set (st2 := set_current (js_index r 0) (js_index r 1) st1).
  assert (G2 : store_no_out st2) by (destruct G as [A B]; split; assumption).
  unfold after_commit.
  assert (Hn : notify_change H m self (_currentState st) st2
               = notify_change_v1 H m self1 (_currentState st) st2
               /\ store_no_out
                    (outcome_store (notify_change H m self (_currentState st) st2))).
  { unfold notify_change, notify_change_v1.
    destruct (negb (loose_eq H (_currentState st) (_currentState st2)));
      [| now split].
    apply notify_agrees; [| exact G2].
    intros l a b Hin. destruct Hm as [_ Hl]. now apply Hl. }
  destruct Hn as [En Gn]. rewrite <- En.
  destruct (notify_change H m self (_currentState st) st2) as [[] st3 | e st3];
    simpl in *; [| now split].
  unfold drain. destruct Gn as [A B]. rewrite A.
  assert (Eq : set_queues [] [] st3 = set_toExecute [] st3).
  { unfold set_queues, set_toExecute. now rewrite A. }
  rewrite Eq.
  destruct (run_all_agrees (_toExecute st3) (set_toExecute [] st3) B) as [Er Gr].
  { split; [exact A | constructor]. }
  rewrite <- Er.
  destruct (run_all self (_toExecute st3) (set_toExecute [] st3))
    as [[] st5 | e st5]; simpl in *; now split.
Qed.
End SelfAgrees.

Lemma fire_agrees (d : nat) : forall args st,
  store_no_out st ->
  fire H m d args st = fire_v1 H m d args st
  /\ store_no_out (outcome_store (fire H m d args st)).
Proof.
  induction d as [| d IH]; intros args st Hst; simpl; [now split |].
  now apply fire_body_agrees.
Qed.
End Agreement.

(** X14. On a machine whose handlers, listeners and queued callbacks never
    call [executeOut], the current [fire] and the one of the version that
    has no second queue do the same: same outcome, same store. *)
Theorem fire_extends_v1 (H : Host) (m : FSM) (d : nat) (args : list value)
        (st : store) :
  machine_no_out m ->
  store_no_out st ->
  fire H m d args st = fire_v1 H m d args st.
Proof. intros Hm Hst. now apply fire_agrees. Qed.
End Versions.

Section Asynchronous.
Variable H : Host.
Variable m : FSM.
Variable self : list value -> store -> outcome unit.

Lemma exec_v1_and_then (c k : code) : forall st,
  exec_v1 self (and_then c k) st
  = let* _, st' := exec_v1 self c st in exec_v1 self k st'.
Proof.
  induction c as [v | s c IH | cb _ c IH | cb _ c IH | args c IH | msg];
    intros st; simpl; auto.
  destruct (self args st) as [[] st1 | e st1]; simpl; auto.
Qed.


End Asynchronous.


(** * The further properties on concrete machines *)

Lemma create_initial_store_witness :
  exists m st,
    create tutorial_initializer = Some (Built m st)
    /\ st = FSM_new (VStr "producer") (VNum 0).
Proof.
  eexists. eexists. split; [reflexivity |].
  apply (proj1 (create_initial_store tutorial_initializer _ _ eq_refl)
               [] (VStr "producer") (VNum 0) (tl tutorial_initializer));
    reflexivity.
Defined.


(** [__proto__] declares nothing; [a] is declared once. *)
Lemma built_table_keys_witness :
  exists m st,
    create [When "__proto__" []; When "a" []] = Some (Built m st)
    /\ NoDup (map fst (_states m))
    /\ hasOwnProperty (_states m) "a" = true
    /\ hasOwnProperty (_states m) "__proto__" = false.
Proof.
  eexists. eexists. split; [reflexivity |].
  destruct (built_table_keys [When "__proto__" []; When "a" []] _ _ eq_refl)
    as [N K].
  split; [exact N |]. split; [exact (K "a") | exact (K "__proto__")].
Defined.

Lemma create_fails_on_shadowed_method_witness :
  exists r,
    create [When "hasOwnProperty" [("go", stay "a")]] = Some r
    /\ r = BuildError TypeError.
Proof.
  eexists. split; [reflexivity |].
  apply (proj1 (create_fails_on_shadowed_method
                  [When "hasOwnProperty" [("go", stay "a")]] _ eq_refl)).
  reflexivity.
Defined.

Lemma built_listeners_witness :
  exists m st,
    create tutorial_initializer = Some (Built m st)
    /\ _onStateChangedListeners m = [log_change].
Proof.
  eexists. eexists. split; [reflexivity |].
  exact (built_listeners tutorial_initializer _ _ eq_refl).
Defined.

(** No [startWith]: the machine starts in state [null], which nothing declares. *)
Lemma undeclared_initial_state_fails_on_fire_witness :
  exists m st,
    create [When "a" [("go", stay "a")]] = Some (Built m st)
    /\ forall d args, fire browser m (S d) args st = Raise UnknownState st.
Proof.
  eexists. eexists. split; [reflexivity |].
  exact (undeclared_initial_state_fails_on_fire browser
           [When "a" [("go", stay "a")]] _ _ eq_refl eq_refl).
Defined.

Lemma throwing_handler_changes_nothing_witness :
  exists st',
    fire browser (fst throwing_machine) 1 [VStr "boom"] (snd throwing_machine)
    = Raise (Thrown "boom") st'
    /\ _currentState st' = VStr "a"
    /\ _currentData st' = VNum 0
    /\ trace st' = []
    /\ timers st' = []
    /\ _toExecute st' = [say_callback].
Proof.
  destruct (throwing_handler_changes_nothing browser (fst throwing_machine) 0 _ _
              (VStr "boom") [] (snd throwing_machine) "boom" eq_refl eq_refl eq_refl)
    as [st' [F [A [B [C [_ [_ [D [E _]]]]]]]]].
  exists st'. repeat (split; [assumption |]). assumption.
Defined.



Lemma describe_v1_ignores_flag_witness :
  describe_v1 browser (fst tutorial) 1 (snd tutorial) (VBool false)
  = describe browser (fst tutorial) 1 (snd tutorial) VUndefined
  /\ exists r,
       describe browser (fst tutorial) 1 (snd tutorial) (VBool false)
       = Ok (Frozen r) (snd tutorial)
       /\ describe_v1 browser (fst tutorial) 1 (snd tutorial) (VBool false)
          = Ok (Stringified " " r) (snd tutorial).
Proof.
  destruct (describe_v1_ignores_flag browser (fst tutorial) 1 (snd tutorial)
              (VBool false)) as [A [_ C]].
  { repeat constructor. }
  split; [exact A |].
  eexists. split; [reflexivity |]. apply C; reflexivity.
Defined.

Lemma fire_extends_v1_witness :
  fire browser (fst reentrant_machine) 3 [VStr "go"] (snd reentrant_machine)
  = fire_v1 browser (fst reentrant_machine) 3 [VStr "go"] (snd reentrant_machine).
Proof.
  apply fire_extends_v1.
  - split.
    + intros k s e h args Hs Hh. simpl in Hs.
      destruct Hs as [[= <- <-] | [[= <- <-] | []]]; simpl in Hh.
      * destruct Hh as [[= <- <-] | [[= <- <-] | []]]; reflexivity.
      * destruct Hh.
    + intros l a b [<- | []]. reflexivity.
  - split; [reflexivity | constructor].
Defined.


(** * What a created machine reports *)

Section Reported.

Lemma In_assign {A : Type} (k k' : string) (a a' : A) (o : list (string * A)) :
  In (k, a) (assign k' a' o) -> (k = k' /\ a = a') \/ In (k, a) o.
Proof.
  induction o as [| [k0 a0] o IH]; simpl.
  - intros [[= <- <-] | []]. now left.
  - destruct (String.eqb k' k0) eqn:E; simpl.
    + apply String.eqb_eq in E. subst k0.
      intros [[= <- <-] | Hin]; [now left | right; now right].
    + intros [Heq | Hin]; [right; now left |].
      destruct (IH Hin) as [Hl | Hr]; [now left | right; now right].
Qed.

Lemma initialize_keys (init : list (string * handler)) : forall x y,
  StateBuilder.initialize init x = Some y ->
  forall e, In e (map fst (StateBuilder._handlers y))
            <-> In e (map fst (StateBuilder._handlers x)) \/ In e (map fst init).
Proof.
  induction init as [| [e' cb] init IH]; intros x y; simpl.
  - intros [= <-] e. tauto.
  - destruct (StateBuilder.on e' cb x) as [x' |] eqn:E; [| discriminate].
    intros Hy e. rewrite (IH _ _ Hy e).
    apply on_spec in E. destruct E as [_ ->].
    rewrite keys_assign. intuition.
Qed.

(** Every entry of a configured builder comes from a declaration. *)
Lemma configured_entries (calls : list builder_call) : forall x y,
  configure calls x = Some y ->
  forall k sb,
    In (k, sb) (FSMBuilder._states y) ->
    In (k, sb) (FSMBuilder._states x)
    \/ exists init, In (When k init) calls
                    /\ StateBuilder.initialize init (StateBuilder.new k) = Some sb.
Proof.
  induction calls as [| c calls IH]; intros x y; simpl.
  - intros [= <-] k sb Hin. now left.
  - destruct (call_builder c x) as [x' |] eqn:E; [| discriminate].
    intros Hy k sb Hin.
    destruct (IH _ _ Hy k sb Hin) as [Hx' | [init [Hc Hi]]].
    2:{ right. exists init. split; [now right | exact Hi]. }
    destruct c as [s d | name init | l]; simpl in E.
    + injection E as <-. now left.
    + unfold FSMBuilder.when in E.
      destruct (StateBuilder.initialize init (StateBuilder.new name)) as [state |] eqn:I;
        [| discriminate].
      injection E as <-. simpl in Hx'.
      destruct (String.eqb name "__proto__"); [now left |].
      apply In_assign in Hx'. destruct Hx' as [[-> ->] | Hx]; [| now left].
      right. exists init. split; [now left | exact I].
    + injection E as <-. now left.
Qed.

Lemma built_entries (calls : list builder_call) (m : FSM) (st : store) :
  create calls = Some (Built m st) ->
  forall k s,
    In (k, s) (_states m) ->
    exists init,
      In (When k init) calls
      /\ _name s = k
      /\ forall e, In e (map fst (_handlers s)) <-> In e (map fst init).
Proof.
  intros Hc k s Hin.
  destruct (create_inv _ m st Hc) as [b [Hb [_ [-> _]]]].
  simpl in Hin. apply in_map_iff in Hin. destruct Hin as [[k' sb] [[= <- <-] Hin]].
  apply (proj1 (In_for_in _ _)) in Hin.
  destruct (configured_entries calls _ _ Hb k' sb Hin) as [[] | [init [Hc' Hi]]].
  exists init. split; [exact Hc' |]. simpl.
  split; [apply (initialize_name _ _ _ Hi) |].
  intros e. rewrite (initialize_keys init _ _ Hi e). simpl. tauto.
Qed.

(** X16. When no declaration registers an event under the name
    [__proto__], every state of the created machine bears the name under
    which the table holds it, and handles exactly the events that one of the
    declarations of that name registered. *)
Theorem built_states_are_named_by_their_key (calls : list builder_call)
        (m : FSM) (st : store) :
  create calls = Some (Built m st) ->
  (forall k init, In (When k init) calls -> ~ In "__proto__" (map fst init)) ->
  forall k s,
    lookup k (_states m) = Some s ->
    _name s = k
    /\ exists init,
         In (When k init) calls
         /\ forall e, hasOwnProperty (_handlers s) e = true <-> In e (map fst init).
Proof.
  intros Hc _ k s Hl.
  destruct (built_entries calls m st Hc k s (lookup_In _ _ _ Hl))
    as [init [Hin [Hn Hk]]].
  split; [exact Hn |]. exists init. split; [exact Hin |].
  intros e. rewrite hasOwnProperty_In. apply Hk.
Qed.

(** X17. When no declaration registers an event named [hasOwnProperty]
    or [__proto__], [describe()] on a created machine returns at once,
    changing nothing, and its snapshot lists exactly the declared state
    names (but [__proto__]), each with the events one of its declarations
    registered, the listener count being the number of calls to
    [onStateChanged]. *)
Theorem describe_created_machine (H : Host) (d : nat) (calls : list builder_call)
        (m : FSM) (st : store) :
  create calls = Some (Built m st) ->
  (forall k init, In (When k init) calls ->
                  ~ In "hasOwnProperty" (map fst init)
                  /\ ~ In "__proto__" (map fst init)) ->
  exists result,
    describe H m d st VUndefined = Ok (Stringified " " result) st
    /\ current_state result = _currentState st
    /\ current_data result = _currentData st
    /\ listeners_count result = List.length (registered_listeners calls)
    /\ (forall k, In k (map name (states result))
                  <-> existsb (declares k) calls = true /\ k <> "__proto__")
    /\ (forall sd, In sd (states result) ->
                   exists init, In (When (name sd) init) calls
                                /\ forall e, In e (handlers sd) <-> In e (map fst init)).
Proof.
  intros Hc Hno.
  pose proof (built_entries calls m st Hc) as Hent.
  destruct (create_inv _ m st Hc) as [b [Hb [Hown [Hm Hst]]]].
  destruct (configure_spec calls _ _ Hb) as [_ [O [_ [_ R]]]].
  assert (Hg : hasOwnProperty (_states m) "hasOwnProperty" = false).
  { unfold hasOwnProperty. rewrite Hm. simpl. rewrite (built_lookup _ b _ Hb).
    unfold hasOwnProperty in Hown.
    now destruct (lookup "hasOwnProperty" (FSMBuilder._states b)). }
  assert (Hfor : Forall (fun e => hasOwnProperty (_handlers (snd e)) "hasOwnProperty"
                                  = false) (for_in (_states m))).
  { apply Forall_forall. intros [k s] Hin. apply (proj1 (In_for_in _ _)) in Hin. simpl.
    destruct (Hent k s Hin) as [init [Hw [_ Hk]]].
    destruct (hasOwnProperty (_handlers s) "hasOwnProperty") eqn:E; [| reflexivity].
    exfalso. apply (proj1 (Hno k init Hw)). apply Hk. now apply hasOwnProperty_In. }
  unfold describe, describe_body. rewrite Hg, (describe_states_spec _ _ _ Hfor). simpl.
  eexists. split; [reflexivity |]. simpl.
  split; [reflexivity |]. split; [reflexivity |].
  split; [rewrite Hm; simpl; now rewrite R |].
  split.
  - intros k. rewrite map_map. simpl. split.
    + intros Hin. apply in_map_iff in Hin. destruct Hin as [[k' s] [Hn Hin]].
      simpl in Hn. apply (proj1 (In_for_in _ _)) in Hin.
      destruct (Hent k' s Hin) as [_ [_ [Hname _]]].
      assert (Hkk : k' = k) by congruence. rewrite Hkk in Hin. clear Hkk Hname.
      assert (Hk : hasOwnProperty (_states m) k = true).
      { apply hasOwnProperty_In. apply in_map_iff.
        exists (k, s). split; [reflexivity | exact Hin]. }
      unfold hasOwnProperty in Hk. rewrite Hm in Hk. simpl in Hk.
      rewrite (built_lookup _ b _ Hb) in Hk.
      specialize (O k). unfold hasOwnProperty in O at 1 2. simpl in O.
      destruct (lookup k (FSMBuilder._states b)); [| discriminate].
      symmetry in O. apply andb_true_iff in O. destruct O as [O1 O2].
      split; [exact O1 |]. apply negb_true_iff, String.eqb_neq in O2. exact O2.
    + intros [Hd Hp].
      specialize (O k). unfold hasOwnProperty in O at 1 2. simpl in O.
      apply String.eqb_neq in Hp. rewrite Hd, Hp in O. simpl in O.
      destruct (lookup k (FSMBuilder._states b)) as [sb |] eqn:L; [| discriminate].
      assert (Hl : lookup k (_states m) = Some (StateBuilder._build sb)).
      { rewrite Hm. simpl. rewrite (built_lookup _ b _ Hb), L. reflexivity. }
      pose proof (lookup_In _ _ _ Hl) as Hin.
      destruct (Hent k _ Hin) as [_ [_ [Hname _]]].
      apply in_map_iff. exists (k, StateBuilder._build sb).
      split; [exact Hname | now apply In_for_in].
  - intros sd Hin. apply in_map_iff in Hin. destruct Hin as [[k s] [<- Hin]].
    simpl. apply (proj1 (In_for_in _ _)) in Hin.
    destruct (Hent k s Hin) as [init [Hw [Hname Hk]]].
    exists init. rewrite Hname. split; [exact Hw |].
    intros e. rewrite <- Hk, !in_map_iff.
    split; intros [x [Hx Hx']]; exists x; (split; [exact Hx |]); now apply In_for_in.
Qed.
End Reported.

Lemma built_states_are_named_by_their_key_witness :
  exists m st s,
    create tutorial_initializer = Some (Built m st)
    /\ lookup "consumer" (_states m) = Some s
    /\ _name s = "consumer".
Proof.
  eexists. eexists. eexists. split; [reflexivity |]. split; [reflexivity |].
  refine (proj1 (built_states_are_named_by_their_key tutorial_initializer _ _
                   eq_refl _ "consumer" _ eq_refl)).
  intros k init [E | [E | [E | [E | []]]]]; try discriminate;
    injection E as <- <-; simpl; intuition discriminate.
Defined.

Lemma describe_created_machine_witness :
  exists m st result,
    create tutorial_initializer = Some (Built m st)
    /\ describe browser m 1 st VUndefined = Ok (Stringified " " result) st
    /\ listeners_count result = 1
    /\ (In "consumer" (map name (states result)))
    /\ ~ In "__proto__" (map name (states result)).
Proof.
  eexists. eexists.
  eassert (K : _).
  { eapply (describe_created_machine browser 1 tutorial_initializer _ _ eq_refl).
    intros k init [E | [E | [E | [E | []]]]]; try discriminate;
      injection E as <- <-; simpl; split; intuition discriminate. }
  destruct K as [result [D [_ [_ [L [N _]]]]]].
  exists result. split; [reflexivity |]. split; [exact D |]. split; [exact L |].
  split.
  - apply N. split; [reflexivity | discriminate].
  - intros Hin. apply N in Hin. destruct Hin as [_ Hp]. now apply Hp.
Defined.
